(** * Untwister command-line driver (src/main.cpp)

    A shallow embedding of [main], [Usage], [FindSeed] and [DisplayProgress]
    of src/main.cpp.  A run is a function from the command line to the trace
    of what the program does (text written to stdout and stderr, sleeps,
    calls into the controller) and the way it ends.

    The C and C++ library functions the driver calls are written out as
    functions: [strtoul] (unsigned long of 64 bits, C locale, without the
    binary prefix of C23), [getopt] (GNU, POSIXLY_CORRECT unset, option
    characters in ASCII), [std::getline], [isprint], [isspace].  [atof], the
    rendering of doubles, the clock, the file system, the [Untwister]
    controller (Untwister.h) and the console colour macros (ConsoleColors.h)
    are not part of src/main.cpp and enter through the [World] class.  The
    signal handlers installed first in [main] are left out. *)

From Stdlib Require Import ZArith List Bool Lia Ascii String.
From Stdlib Require Import Floats.SpecFloat Numbers.DecimalString.
From Stdlib Require Numbers.DecimalFacts Numbers.DecimalPos.
Import ListNotations.

Open Scope string_scope.
Open Scope list_scope.
Open Scope Z_scope.

(** String concatenation, written as the [<<] chains of the source read. *)
Infix "+++" := String.append (right associativity, at level 60).

(** ** Machine integers *)

Module Int.

(** [uint32_t] / [unsigned int]: a Z reduced modulo 2^32. *)
Definition UINT_MAX : Z := 4294967295.
Definition wrap32 (z : Z) : Z := z mod 4294967296.

(** [unsigned long] on the LP64 targets the program is built for. *)
Definition ULONG_MAX : Z := 18446744073709551615.
Definition wrap64 (z : Z) : Z := z mod 18446744073709551616.

End Int.
Export Int.

(** ** Characters and text *)

Module Text.

Definition code (c : ascii) : Z := Z.of_nat (nat_of_ascii c).

Definition chars (s : string) : list ascii := list_ascii_of_string s.

(** Rendering of a non-negative integer by [operator<<]. *)
Definition dec (z : Z) : string := NilZero.string_of_uint (N.to_uint (Z.to_N z)).

Definition endl : string := String (ascii_of_nat 10) EmptyString.

(** [isspace] in the C locale: space, \t, \n, \v, \f, \r. *)
Definition isspace (c : ascii) : bool :=
  (code c =? 32) || ((9 <=? code c) && (code c <=? 13)).

(** [isprint] in the C locale. *)
Definition isprint (z : Z) : bool := (32 <=? z) && (z <=? 126).

(** Value of a character as a digit, for bases up to 36. *)
Definition digit_val (c : ascii) : option Z :=
  let k := code c in
  if (48 <=? k) && (k <=? 57) then Some (k - 48)
  else if (97 <=? k) && (k <=? 122) then Some (k - 97 + 10)
  else if (65 <=? k) && (k <=? 90) then Some (k - 65 + 10)
  else None.

Definition is_x (c : ascii) : bool := (code c =? 120) || (code c =? 88).

Fixpoint skip_space (cs : list ascii) : list ascii :=
  match cs with
  | c :: rest => if isspace c then skip_space rest else cs
  | [] => []
  end.

End Text.
Export Text.

(** ** strtoul *)

Module Strtoul.

(** The accumulator of the digit loop: [any] records that a digit was
    consumed, [acc = None] that the value left the range of unsigned long. *)
Record acc := mkAcc { any : bool; val : option Z }.

Definition acc_step (base : Z) (a : acc) (d : Z) : acc :=
  match val a with
  | None => mkAcc true None
  | Some i =>
      let cutoff := ULONG_MAX / base in
      let cutlim := ULONG_MAX mod base in
      if (cutoff <? i) || ((i =? cutoff) && (cutlim <? d))
      then mkAcc true None
      else mkAcc true (Some (i * base + d))
  end.

(** The digit loop: consume characters while they are digits of [base]. *)
Fixpoint digits_loop (base : Z) (cs : list ascii) (a : acc) : acc :=
  match cs with
  | [] => a
  | c :: rest =>
      match digit_val c with
      | Some d => if d <? base then digits_loop base rest (acc_step base a d) else a
      | None => a
      end
  end.

(** Optional sign: returns whether the value is negated and the rest. *)
Definition take_sign (cs : list ascii) : bool * list ascii :=
  match cs with
  | c :: rest =>
      if code c =? 45 then (true, rest)
      else if code c =? 43 then (false, rest)
      else (false, cs)
  | [] => (false, [])
  end.

(** Base detection and prefix removal for base 0 and base 16. *)
Definition take_prefix (base : Z) (cs : list ascii) : Z * list ascii :=
  match cs with
  | c0 :: rest =>
      if code c0 =? 48 then
        match rest with
        | c1 :: rest' =>
            if ((base =? 0) || (base =? 16)) && is_x c1 then (16, rest')
            else if base =? 0 then (8, cs) else (base, cs)
        | [] => if base =? 0 then (8, cs) else (base, cs)
        end
      else if base =? 0 then (10, cs) else (base, cs)
  | [] => if base =? 0 then (10, cs) else (base, cs)
  end.

(** [strtoul(s, NULL, base)] as an unsigned long. *)
Definition strtoul (s : string) (base : Z) : Z :=
  let cs := skip_space (chars s) in
  let '(negative, cs1) := take_sign cs in
  let '(b, cs2) := take_prefix base cs1 in
  let a := digits_loop b cs2 (mkAcc false (Some 0)) in
  if any a then
    match val a with
    | None => ULONG_MAX
    | Some i => if negative then wrap64 (- i) else i
    end
  else 0.

(** The value after the conversion to [uint32_t] or [unsigned int] that
    every call site of the driver performs. *)
Definition strtoul32 (s : string) (base : Z) : Z := wrap32 (strtoul s base).

End Strtoul.
Export Strtoul.

(** ** std::getline *)

Module Getline.

Definition is_newline (c : ascii) : bool := code c =? 10.

(** The lines [while (std::getline(infile, line))] yields on a stream holding
    [cs]; [line] is the text extracted so far.  A last line without a
    newline is still delivered when it is not empty; at end of file
    with nothing extracted the stream fails and the loop ends. *)
Fixpoint getlines (cs : list ascii) (line : list ascii) : list string :=
  match cs with
  | [] =>
      match line with
      | [] => []
      | _ :: _ => [string_of_list_ascii line]
      end
  | c :: rest =>
      if is_newline c then string_of_list_ascii line :: getlines rest []
      else getlines rest (line ++ [c])
  end.

Definition file_lines (content : string) : list string := getlines (chars content) [].

End Getline.
Export Getline.

(** ** getopt *)

Module Getopt.

(** What one call of [getopt] leaves behind: its return value and the
    globals [optarg] and [optopt]. *)
Record result := mkResult { opt_c : Z; opt_arg : string; opt_opt : Z }.

Definition ch (c : ascii) : Z := code c.

Definition QUESTION : Z := ch "?".

(** The option string of [main]: "d:i:g:t:r:c:uh". *)
Definition takes_argument (c : ascii) : bool :=
  let k := code c in
  (k =? ch "d") || (k =? ch "i") || (k =? ch "g") ||
  (k =? ch "t") || (k =? ch "r") || (k =? ch "c").

Definition is_flag (c : ascii) : bool :=
  let k := code c in (k =? ch "u") || (k =? ch "h").

(** The characters of one option element after its dash.  [next] is the
    following element of argv, if any; the boolean tells whether it was taken
    as an argument. *)
Fixpoint scan_cluster (cs : list ascii) (next : option string)
  : list result * bool :=
  match cs with
  | [] => ([], false)
  | c :: rest =>
      if takes_argument c then
        match rest with
        | _ :: _ => ([mkResult (code c) (string_of_list_ascii rest) QUESTION], false)
        | [] =>
            match next with
            | Some a => ([mkResult (code c) a QUESTION], true)
            | None => ([mkResult QUESTION EmptyString (code c)], false)
            end
        end
      else
        let '(rs, taken) := scan_cluster rest next in
        if is_flag c then (mkResult (code c) EmptyString QUESTION :: rs, taken)
        else (mkResult QUESTION EmptyString (code c) :: rs, taken)
  end.

Definition is_dash (c : ascii) : bool := code c =? 45.

(** The successive results of [getopt(argc, argv, "d:i:g:t:r:c:uh")] over the
    elements after argv[0], in GNU's default mode: elements that are not
    options are passed over, "--" ends the scan.  [skip] says that the
    element at the head was consumed as the previous option's argument. *)
Fixpoint scan_args (args : list string) (skip : bool) : list result :=
  match args with
  | [] => []
  | a :: rest =>
      if skip then scan_args rest false
      else
        match chars a with
        | d :: c :: cs =>
            if is_dash d then
              if is_dash c && match cs with [] => true | _ => false end then []
              else
                let '(rs, taken) := scan_cluster (c :: cs) (hd_error rest) in
                rs ++ scan_args rest taken
            else scan_args rest false
        | _ => scan_args rest false
        end
  end.

Definition getopt_all (argv : list string) : list result := scan_args (tl argv) false.

End Getopt.
Export Getopt.

(** ** The controller and the world around the driver *)

(** [double]: IEEE 754 binary64. *)
Definition double : Type := spec_float.

Module Double.
Definition prec : Z := 53.
Definition emax : Z := 1024.
Definition of_Z (z : Z) : double := binary_normalize prec emax z 0 false.
Definition zero : double := S754_zero false.
Definition ltb (x y : double) : bool := SFltb x y.
Definition leb (x y : double) : bool := SFleb x y.
Definition div (x y : double) : double := SFdiv prec emax x y.
Definition mul (x y : double) : double := SFmul prec emax x y.
End Double.

(** Modelled from the spec: the [Untwister] controller of Untwister.h, which
    is not in src/.  Section 4.7 gives it the configuration slots below
    (algorithm name, depth, worker count, minimum confidence, observation
    sequence) with set-*, get-* and add-observation over them. *)
Record Untwister := mkUntwister {
  m_prng : string;
  m_depth : Z;
  m_threads : Z;
  m_minConfidence : double;
  m_observedOutputs : list Z
}.

Definition setPRNG (name : string) (u : Untwister) : Untwister :=
  mkUntwister name (m_depth u) (m_threads u) (m_minConfidence u) (m_observedOutputs u).
Definition setDepth (depth : Z) (u : Untwister) : Untwister :=
  mkUntwister (m_prng u) depth (m_threads u) (m_minConfidence u) (m_observedOutputs u).
Definition setThreads (threads : Z) (u : Untwister) : Untwister :=
  mkUntwister (m_prng u) (m_depth u) threads (m_minConfidence u) (m_observedOutputs u).
Definition setMinConfidence (c : double) (u : Untwister) : Untwister :=
  mkUntwister (m_prng u) (m_depth u) (m_threads u) c (m_observedOutputs u).
Definition addObservedOutput (v : Z) (u : Untwister) : Untwister :=
  mkUntwister (m_prng u) (m_depth u) (m_threads u) (m_minConfidence u)
              (m_observedOutputs u ++ [v]).
Definition observed_empty (u : Untwister) : bool :=
  match m_observedOutputs u with [] => true | _ :: _ => false end.

(** One observation of the shared run state by the progress thread: the
    value its load of the completed flag returned, the time read from the
    steady clock, and the status vector of per-worker counters. *)
Record Poll := mkPoll {
  poll_completed : bool;
  poll_time_span : double;
  poll_status : list Z
}.

(** Everything the driver reads that is not in src/main.cpp. *)
Class World := {
  (* ConsoleColors.h *)
  BOLD : string; RESET : string; INFO : string; WARN : string;
  SUCCESS : string; CLEAR : string; PURPLE : string;
  (* the C and C++ libraries *)
  atof : string -> double;
  show_double : double -> string;
  time_at : nat -> Z;
  read_file : string -> option string;
  elapsed_seconds : Z;
  (* Untwister.h *)
  getPRNGNames : list string;
  hardware_threads : Z;
  isSupportedPRNG : string -> bool;
  inferState : Untwister -> bool;
  bruteforce : Untwister -> Z -> Z -> list (Z * double);
  generateSampleFromSeed : Untwister -> Z -> list Z;
  generateSampleFromState : Untwister -> list Z;
  (* what the progress thread observes *)
  running_loads : list bool;
  polls : list Poll
}.

(** ** Observable behaviour *)

Inductive event :=
| Stdout (s : string)
| Stderr (s : string)
| Flush
| Sleep (ms : Z)
| CallInferState
| CallBruteforce (lower upper : Z)
| CallGenerateSampleFromSeed (seed : Z)
| CallGenerateSampleFromState.

Definition trace := list event.

(** How a run ends: with an exit code, or never, when the join on the
    progress thread does not return. *)
Inductive outcome :=
| Exit (code : Z)
| Blocked.

Definition EXIT_SUCCESS : Z := 0.
Definition EXIT_FAILURE : Z := 1.
Definition ONE_YEAR : Z := 31536000.

Definition tab : string := String (ascii_of_nat 9) EmptyString.
Definition dquote : string := String (ascii_of_nat 34) EmptyString.

Section Driver.

Context {W : World}.

(** Modelled from the spec: the controller as [new Untwister()] leaves it.
    The constructor is not in src/; section 4.7 documents the defaults: the
    first registered algorithm, depth 1000, the parallelism the platform
    suggests, minimum confidence 100.0, no observation. *)
Definition new_Untwister : Untwister :=
  mkUntwister (hd EmptyString getPRNGNames) 1000 hardware_threads (Double.of_Z 100) [].

(** *** Usage *)

Fixpoint usage_names (names : list string) (index : nat) : trace :=
  match names with
  | [] => []
  | name :: rest =>
      Stdout (tab +++ tab +++ BOLD +++ " * " +++ RESET +++ name)
      :: (match index with O => [Stdout " (default)"] | S _ => [] end)
      ++ Stdout endl :: usage_names rest (S index)
  end.

Definition Usage (u : Untwister) : trace :=
  [ Stdout (BOLD +++ "Untwister" +++ RESET
            +++ " - Recover PRNG seeds from observed values." +++ endl);
    Stdout (tab +++ "-i <input_file> [-d <depth> ] [-r <prng>] [-g <seed>] [-t <threads>] [-c <confidence>]"
            +++ endl +++ endl);
    Stdout (tab +++ "-i <input_file>" +++ endl +++ tab +++ tab
            +++ "Path to file input file containing observed results of your RNG. The contents"
            +++ endl);
    Stdout (tab +++ tab
            +++ "are expected to be newline separated 32-bit integers. See test_input.txt for"
            +++ endl);
    Stdout (tab +++ tab +++ "an example." +++ endl);
    Stdout (tab +++ "-d <depth>" +++ endl +++ tab +++ tab
            +++ "The depth (default 1000) to inspect for each seed value when brute forcing."
            +++ endl);
    Stdout (tab +++ tab
            +++ "Choosing a higher depth value will make brute forcing take longer (linearly), but is"
            +++ endl);
    Stdout (tab +++ tab
            +++ "required for cases where the generator has been used many times already."
            +++ endl);
    Stdout (tab +++ "-r <prng>" +++ endl +++ tab +++ tab
            +++ "The PRNG algorithm to use. Supported PRNG algorithms:" +++ endl) ]
  ++ usage_names getPRNGNames O
  ++ [ Stdout (tab +++ "-u" +++ endl +++ tab +++ tab
               +++ "Use bruteforce, but only for unix timestamp values within a range of +/- 1 "
               +++ endl);
       Stdout (tab +++ tab +++ "year from the current time." +++ endl);
       Stdout (tab +++ "-g <seed>" +++ endl +++ tab +++ tab
               +++ "Generate a test set of random numbers from the given seed (at a random depth)"
               +++ endl);
       Stdout (tab +++ "-c <confidence>" +++ endl +++ tab +++ tab
               +++ "Set the minimum confidence percentage to report" +++ endl);
       Stdout (tab +++ "-t <threads>" +++ endl +++ tab +++ tab
               +++ "Spawn this many threads (default is " +++ dec (m_threads u) +++ ")"
               +++ endl);
       Stdout endl ].

(** *** DisplayProgress *)

(** The first loop: sleep 100 ms until a load of the running flag returns
    true.  [None]: no load of [loads] did. *)
Fixpoint wait_running (loads : list bool) : option trace :=
  match loads with
  | [] => None
  | true :: _ => Some []
  | false :: rest => option_map (cons (Sleep 100)) (wait_running rest)
  end.

(** The locals of the polling loop. *)
Record progress := mkProgress {
  percent : double;
  seedsPerSec : double;
  timeLeft : double;
  count : Z
}.

Definition progress0 : progress :=
  mkProgress Double.zero Double.zero Double.zero 0.

Definition status_sum (status : list Z) : Z :=
  fold_left (fun sum x => wrap32 (sum + x)) status 0.

Definition spinner (k : Z) : string :=
  if k =? 0 then "|" else if k =? 1 then "/" else if k =? 2 then "-"
  else String (ascii_of_nat 92) EmptyString.

(** One turn of the body of the polling loop, up to and including [++count]. *)
Definition poll_body (totalWork : Z) (p : Poll) (st : progress) : trace * progress :=
  let sum := status_sum (poll_status p) in
  let percent' := Double.mul (Double.div (Double.of_Z sum) (Double.of_Z totalWork))
                             (Double.of_Z 100) in
  let '(seedsPerSec', timeLeft') :=
    if Double.ltb Double.zero (poll_time_span p) then
      let sps := Double.div (Double.of_Z sum) (poll_time_span p) in
      if 0 =? count st mod 20
      then (sps, Double.div (Double.div (Double.of_Z (wrap32 (totalWork - sum))) sps)
                            (Double.of_Z 60))
      else (sps, timeLeft st)
    else (seedsPerSec st, timeLeft st) in
  ([ Stdout (CLEAR +++ BOLD +++ PURPLE +++ "[" +++ spinner (count st mod 4) +++ "]" +++ RESET
             +++ " Progress: " +++ show_double percent' +++ "%"
             +++ "  [" +++ dec sum +++ " / " +++ dec totalWork +++ "]"
             +++ "  ~" +++ show_double seedsPerSec' +++ "/sec"
             +++ "  " +++ show_double timeLeft' +++ " minute(s)");
     Flush ],
   mkProgress percent' seedsPerSec' timeLeft' (wrap32 (count st + 1))).

(** The polling loop over the successive observations [ps]: it leaves at the
    first one whose completed flag is set.  [None]: none of [ps] had it. *)
Fixpoint poll_loop (totalWork : Z) (ps : list Poll) (st : progress)
  : option (trace * progress) :=
  match ps with
  | [] => None
  | p :: rest =>
      if poll_completed p then Some ([], st)
      else
        let '(out, st') := poll_body totalWork p st in
        match poll_loop totalWork rest st' with
        | Some (out', st'') => Some (out ++ Sleep 100 :: out', st'')
        | None => None
        end
  end.

Definition DisplayProgress (totalWork : Z) : option trace :=
  match wait_running running_loads with
  | None => None
  | Some waited =>
      match poll_loop totalWork polls progress0 with
      | None => None
      | Some (out, _) => Some (waited ++ out ++ [Stdout CLEAR])
      end
  end.

(** *** FindSeed *)

Definition found_line (r : Z * double) : event :=
  Stdout (SUCCESS +++ "Found seed " +++ dec (fst r)
          +++ " with a confidence of " +++ show_double (snd r)
          +++ "%" +++ endl).

(** The boolean tells whether [FindSeed] returns: the join on the progress
    thread waits for [DisplayProgress] to leave its loops.  The events of the
    progress thread are placed after the call of [bruteforce], with which
    they are concurrent. *)
Definition FindSeed (u : Untwister) (lowerBoundSeed upperBoundSeed : Z) : trace * bool :=
  let head :=
    [ Stdout (INFO +++ "Looking for seed using " +++ BOLD +++ m_prng u +++ RESET +++ endl);
      Stdout (INFO +++ "Spawning " +++ dec (m_threads u) +++ " worker thread(s) ..." +++ endl);
      CallBruteforce lowerBoundSeed upperBoundSeed ] in
  let results := bruteforce u lowerBoundSeed upperBoundSeed in
  match DisplayProgress (wrap32 (upperBoundSeed - lowerBoundSeed)) with
  | None => (head, false)
  | Some shown =>
      (head ++ shown
       ++ Stdout (INFO +++ "Completed in " +++ dec elapsed_seconds
                  +++ " second(s)" +++ endl)
       :: map found_line results,
       true)
  end.

(** *** main *)

Record locals := mkLocals {
  lowerBoundSeed : Z;
  upperBoundSeed : Z;
  seed : Z;
  generateFlag : bool;
  untwister : Untwister;
  clock : nat  (* calls of time(NULL) made so far *)
}.

Definition locals0 : locals :=
  mkLocals 0 UINT_MAX 0 false new_Untwister O.

Definition with_untwister (l : locals) (u : Untwister) : locals :=
  mkLocals (lowerBoundSeed l) (upperBoundSeed l) (seed l) (generateFlag l) u (clock l).

(** What a case of the switch does to the loop. *)
Inductive flow :=
| Next (l : locals)
| Return (code : Z).

Definition case_g (l : locals) (optarg : string) : trace * flow :=
  ([], Next (mkLocals (lowerBoundSeed l) (upperBoundSeed l) (strtoul32 optarg 10)
                      true (untwister l) (clock l))).

Definition case_u (l : locals) : trace * flow :=
  ([], Next (mkLocals (wrap32 (time_at (clock l) - ONE_YEAR))
                      (wrap32 (time_at (S (clock l)) + ONE_YEAR))
                      (seed l) (generateFlag l) (untwister l) (S (S (clock l))))).

Definition case_r (l : locals) (optarg : string) : trace * flow :=
  if negb (isSupportedPRNG optarg) then
    ([Stderr (WARN +++ "ERROR: The PRNG " +++ dquote +++ optarg +++ dquote
              +++ " is not supported, see -h" +++ endl)],
     Return EXIT_FAILURE)
  else ([], Next (with_untwister l (setPRNG optarg (untwister l)))).

Definition case_d (l : locals) (optarg : string) : trace * flow :=
  let depth := strtoul32 optarg 10 in
  if depth =? 0 then
    ([Stderr (WARN +++ "ERROR: Please enter a valid depth > 1" +++ endl)],
     Return EXIT_FAILURE)
  else
    ([Stdout (INFO +++ "Depth set to: " +++ dec depth +++ endl)],
     Next (with_untwister l (setDepth depth (untwister l)))).

Definition add_lines (lines : list string) (u : Untwister) : Untwister :=
  fold_left (fun u line => addObservedOutput (strtoul32 line 0) u) lines u.

Definition case_i (l : locals) (optarg : string) : trace * flow :=
  match read_file optarg with
  | None =>
      ([Stderr (WARN +++ "ERROR: File " +++ dquote +++ optarg +++ dquote
                +++ " not found" +++ endl)],
       Next l)
  | Some content =>
      ([], Next (with_untwister l (add_lines (file_lines content) (untwister l))))
  end.

Definition case_t (l : locals) (optarg : string) : trace * flow :=
  let threads := strtoul32 optarg 10 in
  if threads =? 0 then
    ([Stderr (WARN +++ "ERROR: Please enter a valid number of threads > 1" +++ endl)],
     Return EXIT_FAILURE)
  else ([], Next (with_untwister l (setThreads threads (untwister l)))).

Definition case_c (l : locals) (optarg : string) : trace * flow :=
  let minimumConfidence := atof optarg in
  if Double.leb minimumConfidence Double.zero
     || Double.ltb (Double.of_Z 100) minimumConfidence then
    ([Stderr (WARN +++ "ERROR: Invalid confidence percentage " +++ endl)],
     Return EXIT_FAILURE)
  else
    ([Stdout (INFO +++ "Minimum confidence set to: " +++ show_double minimumConfidence
              +++ endl)],
     Next (with_untwister l (setMinConfidence minimumConfidence (untwister l)))).

Definition case_question (l : locals) (optopt : Z) : trace * flow :=
  ((if optopt =? ch "d" then
      Stderr ("Option -" +++ dec optopt +++ " requires an argument." +++ endl)
    else if isprint optopt then
      Stderr ("Unknown option `-" +++ dec optopt +++ "'." +++ endl)
    else
      Stderr ("Unknown option character `" +++ dec optopt +++ "'." +++ endl))
   :: Usage (untwister l),
   Return EXIT_FAILURE).

(** The body of the [switch (c)]. *)
Definition handle_option (l : locals) (r : result) : trace * flow :=
  let c := opt_c r in
  if c =? ch "g" then case_g l (opt_arg r)
  else if c =? ch "u" then case_u l
  else if c =? ch "r" then case_r l (opt_arg r)
  else if c =? ch "d" then case_d l (opt_arg r)
  else if c =? ch "i" then case_i l (opt_arg r)
  else if c =? ch "t" then case_t l (opt_arg r)
  else if c =? ch "c" then case_c l (opt_arg r)
  else if c =? ch "h" then (Usage (untwister l), Return EXIT_SUCCESS)
  else if c =? QUESTION then case_question l (opt_opt r)
  else (Usage (untwister l), Return EXIT_FAILURE).

(** The [while ((c = getopt(...)) != -1)] loop over the results getopt
    delivers. *)
Fixpoint process_options (rs : list result) (l : locals) : trace * flow :=
  match rs with
  | [] => ([], Next l)
  | r :: rest =>
      let '(out, f) := handle_option l r in
      match f with
      | Return code => (out, Return code)
      | Next l' =>
          let '(out', f') := process_options rest l' in (out ++ out', f')
      end
  end.

Definition print_sample (results : list Z) : trace :=
  map (fun v => Stdout (dec v +++ endl)) results.

(** The code of [main] after the option loop. *)
Definition after_options (l : locals) : trace * outcome :=
  let u := untwister l in
  if generateFlag l then
    if observed_empty u then
      (CallGenerateSampleFromSeed (seed l)
       :: print_sample (generateSampleFromSeed u (seed l)), Exit EXIT_SUCCESS)
    else
      (CallGenerateSampleFromState
       :: print_sample (generateSampleFromState u), Exit EXIT_SUCCESS)
  else if observed_empty u then
    (Usage u
     ++ [Stderr (WARN +++ "ERROR: No input numbers provided. Use -i <file> to provide a file"
                 +++ endl)],
     Exit EXIT_FAILURE)
  else if inferState u then ([CallInferState], Exit EXIT_SUCCESS)
  else
    let '(out, returned) := FindSeed u (lowerBoundSeed l) (upperBoundSeed l) in
    (CallInferState :: out, if returned then Exit EXIT_SUCCESS else Blocked).

Definition run_options (rs : list result) : trace * outcome :=
  let '(out, f) := process_options rs locals0 in
  match f with
  | Return code => (out, Exit code)
  | Next l => let '(out', o) := after_options l in (out ++ out', o)
  end.

Definition main (argv : list string) : trace * outcome := run_options (getopt_all argv).

End Driver.

(** Modelled from the spec: the seeds a brute-force job evaluates.  The body
    of [Untwister::bruteforce] is not in src/; section 3 defines the search
    job as (lower seed inclusive, upper seed exclusive) and section 4.4
    partitions [lower, upper) among the workers. *)
Definition evaluates (lower upper s : Z) : bool := (lower <=? s) && (s <? upper).

(** ** Reference readings of a line of the input file *)

Module Numeral.

Definition is_digit_of (base : Z) (c : ascii) : bool :=
  match digit_val c with
  | Some d => d <? base
  | None => false
  end.

Definition digit_of (c : ascii) : Z :=
  match digit_val c with
  | Some d => d
  | None => 0
  end.

(** Positional value of the digits [cs], most significant first, on top of
    a value [acc] already read. *)
Fixpoint numeral_value (base : Z) (cs : list ascii) (acc : Z) : Z :=
  match cs with
  | [] => acc
  | c :: rest => numeral_value base rest (acc * base + digit_of c)
  end.

(** A non-empty string of digits of [base] that denotes a 32-bit value. *)
Definition numeral (base : Z) (cs : list ascii) : option Z :=
  match cs with
  | [] => None
  | _ :: _ =>
      if forallb (is_digit_of base) cs && (numeral_value base cs 0 <=? UINT_MAX)
      then Some (numeral_value base cs 0)
      else None
  end.

(** The input format in the words of the specification: after leading
    whitespace, a decimal number, or a hexadecimal one behind a 0x prefix. *)
Definition decimal_or_hex (line : string) : option Z :=
  match skip_space (chars line) with
  | z :: x :: hs =>
      if (code z =? 48) && is_x x then numeral 16 hs
      else numeral 10 (z :: x :: hs)
  | cs => numeral 10 cs
  end.

(** The input format the driver reads: as above, except that a number with
    a leading 0 is octal, and a blank line stands for 0. *)
Definition line_value (line : string) : option Z :=
  match skip_space (chars line) with
  | [] => Some 0
  | z :: rest =>
      if code z =? 48 then
        match rest with
        | x :: hs => if is_x x then numeral 16 hs else numeral 8 (z :: rest)
        | [] => numeral 8 (z :: rest)
        end
      else numeral 10 (z :: rest)
  end.

(** A line on which no conversion is possible: after leading whitespace and
    an optional sign it does not start with a decimal digit. *)
Definition unparseable (line : string) : bool :=
  match snd (take_sign (skip_space (chars line))) with
  | c :: _ => negb (is_digit_of 10 c)
  | [] => true
  end.

End Numeral.
Export Numeral.

(** A malformed line, by the input format of the specification: one that
    is not, after leading whitespace, a decimal number or a hexadecimal
    number behind 0x that denotes a 32-bit value. *)
Definition malformed (line : string) : bool :=
  match decimal_or_hex line with
  | Some _ => false
  | None => true
  end.

(** The base in which strtoul reads, in base 0, a number at the start of
    [cs]. *)
Definition base_of (cs : list ascii) : Z :=
  match cs with
  | z :: rest =>
      if code z =? 48 then
        match rest with
        | x :: _ => if is_x x then 16 else 8
        | [] => 8
        end
      else 10
  | [] => 10
  end.

(** A character that ends the number [cs] in front of it: it is not a digit
    in the base of that number, nor the x that would make a hexadecimal
    prefix of a single 0. *)
Definition ends_number (cs : list ascii) (c : ascii) : bool :=
  negb (is_digit_of (base_of cs) c)
  && negb (match cs with
           | [z] => (code z =? 48) && is_x c
           | _ => false
           end).

(** A text file made of the lines [ls], each ended by a newline. *)
Definition unlines (ls : list string) : string :=
  fold_right (fun line rest => line +++ endl +++ rest) EmptyString ls.

Definition no_newline (line : string) : bool :=
  forallb (fun c => negb (is_newline c)) (chars line).

(** ** Reading a trace *)

Definition is_bruteforce (e : event) : bool :=
  match e with CallBruteforce _ _ => true | _ => false end.

(** A trace without any call of [bruteforce]. *)
Definition quiet (t : trace) : bool := forallb (fun e => negb (is_bruteforce e)) t.

Definition sleep_ms (e : event) : Z :=
  match e with Sleep ms => ms | _ => 0 end.

(** Total time slept along a trace, in milliseconds. *)
Fixpoint slept (t : trace) : Z :=
  match t with
  | [] => 0
  | e :: rest => sleep_ms e + slept rest
  end.

(** Number of renderings of the progress line along a trace. *)
Fixpoint flushes (t : trace) : Z :=
  match t with
  | [] => 0
  | Flush :: rest => 1 + flushes rest
  | _ :: rest => flushes rest
  end.

(** The state of the polling loop after the first [n] observations of [ps],
    none of which is tested for completion. *)
Fixpoint after_polls {W : World} (totalWork : Z) (ps : list Poll) (n : nat) (st : progress)
  : progress :=
  match n, ps with
  | S n', p :: rest => after_polls totalWork rest n' (snd (poll_body totalWork p st))
  | _, _ => st
  end.

(** ** Readings of the options and of the output *)

(** The observations one result of getopt contributes: the values of the
    lines of the file for -i on a file that opens, nothing otherwise. *)
Definition observations_of {W : World} (r : result) : list Z :=
  if opt_c r =? ch "i" then
    match read_file (opt_arg r) with
    | Some content => map (fun line => strtoul32 line 0) (file_lines content)
    | None => []
    end
  else [].

(** The return values of getopt the switch of [main] has a case for. *)
Definition handled (c : Z) : bool :=
  (c =? ch "g") || (c =? ch "u") || (c =? ch "r") || (c =? ch "d") || (c =? ch "i")
  || (c =? ch "t") || (c =? ch "c") || (c =? ch "h") || (c =? QUESTION).

(** The text a trace leaves on stdout. *)
Fixpoint stdout_text (t : trace) : string :=
  match t with
  | [] => EmptyString
  | Stdout s :: rest => s +++ stdout_text rest
  | _ :: rest => stdout_text rest
  end.

(** The sum of the counters of a status vector, as an integer. *)
Definition total (status : list Z) : Z := fold_right Z.add 0 status.

(** The aggregate of the per-worker counters of one observation, in the
    unsigned arithmetic of the progress thread. *)
Definition poll_sum (q : Poll) : Z := wrap32 (total (poll_status q)).

(** The progress line: the spinner of the [k]-th rendering, the percentage,
    the aggregate [sum] of the status counters against the total work, the
    rate and the estimate of the time left held by [st]. *)
Definition progress_line {W : World} (totalWork k sum : Z) (st : progress) : string :=
  CLEAR +++ BOLD +++ PURPLE +++ "[" +++ spinner (k mod 4) +++ "]" +++ RESET
  +++ " Progress: " +++ show_double (percent st) +++ "%"
  +++ "  [" +++ dec sum +++ " / " +++ dec totalWork +++ "]"
  +++ "  ~" +++ show_double (seedsPerSec st) +++ "/sec"
  +++ "  " +++ show_double (timeLeft st) +++ " minute(s)".

(** The line of [Usage] that names one algorithm. *)
Definition name_line {W : World} (name : string) : event :=
  Stdout (tab +++ tab +++ BOLD +++ " * " +++ RESET +++ name).

Definition count_newlines (s : string) : nat :=
  List.length (filter is_newline (chars s)).

(** A text that is not empty and does not end with a newline. *)
Definition ends_open (s : string) : bool :=
  negb (is_newline (last (chars s) (ascii_of_nat 10))).

(** The configuration the guards of -d, -t, -c and -r let through, or the
    one the controller starts with. *)
Definition well_configured {W : World} (u : Untwister) : Prop :=
  1 <= m_depth u <= UINT_MAX
  /\ (m_threads u = hardware_threads \/ 1 <= m_threads u <= UINT_MAX)
  /\ Double.leb (m_minConfidence u) Double.zero = false
  /\ Double.ltb (Double.of_Z 100) (m_minConfidence u) = false
  /\ (m_prng u = hd EmptyString getPRNGNames \/ isSupportedPRNG (m_prng u) = true).

(** ** A sample world *)

Module Sample.

Definition NAN : double := S754_nan.

Definition show (d : double) : string :=
  match d with
  | S754_nan => "nan"
  | S754_zero _ => "0"
  | S754_finite false m e =>
      if 0 <=? e then dec (Z.pos m * 2 ^ e)
      else if (Z.pos m) mod 2 ^ (- e) =? 0 then dec (Z.pos m / 2 ^ (- e)) else "?"
  | _ => "?"
  end.

Definition parse (s : string) : double :=
  if String.eqb s "nan" then NAN else Double.of_Z (strtoul s 10).

Definition files (path : string) : option string :=
  if String.eqb path "observed.txt"
  then Some ("1804289383" +++ endl +++ "0x327b23c6" +++ endl +++ "010" +++ endl
             +++ "oops" +++ endl)
  else None.

Definition now : Z := 1793500000.

Definition world : World := {|
  BOLD := "<b>"; RESET := "</b>"; INFO := "[*] "; WARN := "[!] ";
  SUCCESS := "[$] "; CLEAR := "<clear>"; PURPLE := "<purple>";
  atof := parse;
  show_double := show;
  time_at := fun _ => now;
  read_file := files;
  elapsed_seconds := 3;
  getPRNGNames := ["glibc-rand"; "mt19937"];
  hardware_threads := 4;
  isSupportedPRNG := fun name => String.eqb name "glibc-rand" || String.eqb name "mt19937";
  inferState := fun _ => false;
  bruteforce := fun _ _ _ => [(1, Double.of_Z 100); (7, Double.of_Z 75)];
  generateSampleFromSeed := fun _ seed => [seed; wrap32 (seed + 1)];
  generateSampleFromState := fun _ => [5; 6; 7];
  running_loads := [false; true];
  polls := [ mkPoll false (Double.of_Z 1) [10; 20];
             mkPoll false (Double.of_Z 2) [30; 40];
             mkPoll true (Double.of_Z 3) [50; 50] ]
|}.

(** A longer search: 21 observations before the completed flag is seen,
    the workers advancing by 30 seeds a second. *)
Definition long_polls : list Poll :=
  map (fun k => mkPoll false (Double.of_Z (Z.of_nat k + 1))
                       [10 * (Z.of_nat k + 1); 20 * (Z.of_nat k + 1)])
      (seq 0 21)
  ++ [mkPoll true (Double.of_Z 22) [220; 440]].

Definition long_world : World := {|
  BOLD := "<b>"; RESET := "</b>"; INFO := "[*] "; WARN := "[!] ";
  SUCCESS := "[$] "; CLEAR := "<clear>"; PURPLE := "<purple>";
  atof := parse;
  show_double := show;
  time_at := fun _ => now;
  read_file := files;
  elapsed_seconds := 3;
  getPRNGNames := ["glibc-rand"; "mt19937"];
  hardware_threads := 4;
  isSupportedPRNG := fun name => String.eqb name "glibc-rand" || String.eqb name "mt19937";
  inferState := fun _ => false;
  bruteforce := fun _ _ _ => [(1, Double.of_Z 100); (7, Double.of_Z 75)];
  generateSampleFromSeed := fun _ seed => [seed; wrap32 (seed + 1)];
  generateSampleFromState := fun _ => [5; 6; 7];
  running_loads := [false; true];
  polls := long_polls
|}.

(** A world in which sample.txt holds what generation mode printed for
    three values. *)
Definition replay_files (path : string) : option string :=
  if String.eqb path "sample.txt"
  then Some (stdout_text (print_sample [42; 0; 4294967295]))
  else files path.

Definition replay_world : World := {|
  BOLD := "<b>"; RESET := "</b>"; INFO := "[*] "; WARN := "[!] ";
  SUCCESS := "[$] "; CLEAR := "<clear>"; PURPLE := "<purple>";
  atof := parse;
  show_double := show;
  time_at := fun _ => now;
  read_file := replay_files;
  elapsed_seconds := 3;
  getPRNGNames := ["glibc-rand"; "mt19937"];
  hardware_threads := 4;
  isSupportedPRNG := fun name => String.eqb name "glibc-rand" || String.eqb name "mt19937";
  inferState := fun _ => false;
  bruteforce := fun _ _ _ => [(1, Double.of_Z 100); (7, Double.of_Z 75)];
  generateSampleFromSeed := fun _ seed => [seed; wrap32 (seed + 1)];
  generateSampleFromState := fun _ => [5; 6; 7];
  running_loads := [false; true];
  polls := [mkPoll true (Double.of_Z 1) [1; 2]]
|}.

End Sample.

(** * Properties *)

(** ** strtoul on sample inputs *)

Example strtoul_dec : strtoul32 "  1234" 0 = 1234.
Proof. reflexivity. Qed.
Example strtoul_hex : strtoul32 "0xff" 0 = 255.
Proof. reflexivity. Qed.
Example strtoul_oct : strtoul32 "010" 0 = 8.
Proof. reflexivity. Qed.
Example strtoul_neg : strtoul32 "-1" 10 = 4294967295.
Proof. reflexivity. Qed.
Example strtoul_big : strtoul32 "4294967296" 10 = 0.
Proof. reflexivity. Qed.
Example strtoul_huge : strtoul32 "99999999999999999999999" 10 = 4294967295.
Proof. reflexivity. Qed.
Example strtoul_junk : strtoul32 "abc" 0 = 0.
Proof. reflexivity. Qed.
Example strtoul_0x_only : strtoul32 "0xg" 0 = 0.
Proof. reflexivity. Qed.

(** ** getline, getopt and whole runs on sample inputs *)

Example lines_with_blank_and_open_end :
  file_lines ("12" +++ endl +++ endl +++ "0x1f") = ["12"; EmptyString; "0x1f"].
Proof. reflexivity. Qed.

Example lines_of_empty_file : file_lines EmptyString = [].
Proof. reflexivity. Qed.

Example getopt_clusters_and_operands :
  getopt_all ["untwister"; "-ud5"; "operand"; "-i"; "-x"; "--"; "-h"]
  = [ mkResult (ch "u") EmptyString QUESTION;
      mkResult (ch "d") "5" QUESTION;
      mkResult (ch "i") "-x" QUESTION ].
Proof. reflexivity. Qed.

Example getopt_missing_argument :
  getopt_all ["untwister"; "-t"] = [mkResult QUESTION EmptyString (ch "t")].
Proof. reflexivity. Qed.

Example dec_zero : dec 0 = "0".
Proof. reflexivity. Qed.

Example dec_uint_max : dec UINT_MAX = "4294967295".
Proof. reflexivity. Qed.

Example run_help_first :
  snd (@main Sample.world ["untwister"; "-h"; "-r"; "no-such-prng"]) = Exit 0.
Proof. reflexivity. Qed.

Example run_unknown_option :
  snd (@main Sample.world ["untwister"; "-x"]) = Exit 1.
Proof. reflexivity. Qed.

Example run_unknown_prng :
  snd (@main Sample.world ["untwister"; "-r"; "no-such-prng"; "-i"; "observed.txt"]) = Exit 1.
Proof. reflexivity. Qed.

Example run_depth_zero :
  @main Sample.world ["untwister"; "-d"; "0"]
  = ([Stderr ("[!] ERROR: Please enter a valid depth > 1" +++ endl)], Exit 1).
Proof. reflexivity. Qed.

Example run_without_input :
  snd (@main Sample.world ["untwister"; "-t"; "2"]) = Exit 1.
Proof. reflexivity. Qed.

(** A second -i naming a file that cannot be opened does not stop the
    search over the observations of the first. *)
Example run_second_file_unreadable :
  let run := @main Sample.world
               ["untwister"; "-i"; "observed.txt"; "-i"; "missing.txt"] in
  snd run = Exit 0
  /\ In (Stderr ("[!] ERROR: File " +++ dquote +++ "missing.txt" +++ dquote
                 +++ " not found" +++ endl)) (fst run)
  /\ In (CallBruteforce 0 4294967295) (fst run).
Proof. vm_compute. split; [reflexivity|]. split; [now left|]. do 4 right. now left. Qed.

(** ** The digit loop computes positional values *)

Section StrtoulFacts.

Lemma digit_val_range (c : ascii) (d : Z) :
  digit_val c = Some d -> 0 <= d < 36.
Proof.
  unfold digit_val.
  destruct ((48 <=? code c) && (code c <=? 57)) eqn:E1;
    [|destruct ((97 <=? code c) && (code c <=? 122)) eqn:E2;
      [|destruct ((65 <=? code c) && (code c <=? 90)) eqn:E3]];
    intros H; inversion H; subst; lia.
Qed.

Lemma digit_of_nonneg (c : ascii) : 0 <= digit_of c.
Proof.
  unfold digit_of. destruct (digit_val c) as [d|] eqn:E; [|lia].
  apply digit_val_range in E. lia.
Qed.

Lemma decimal_digit_code (base : Z) (c : ascii) :
  base <= 10 -> is_digit_of base c = true -> 48 <= code c <= 57.
Proof.
  unfold is_digit_of, digit_val. intros Hb.
  destruct ((48 <=? code c) && (code c <=? 57)) eqn:E1; [lia|].
  destruct ((97 <=? code c) && (code c <=? 122)) eqn:E2; [lia|].
  destruct ((65 <=? code c) && (code c <=? 90)) eqn:E3; [lia|discriminate].
Qed.

Lemma numeral_value_mono (base : Z) (cs : list ascii) :
  1 <= base -> forall acc, 0 <= acc -> acc <= numeral_value base cs acc.
Proof.
  intros Hb. induction cs as [|c rest IH]; intros acc Hacc; simpl; [lia|].
  pose proof (digit_of_nonneg c) as Hd.
  assert (acc <= acc * base + digit_of c) by nia.
  specialize (IH (acc * base + digit_of c)). lia.
Qed.

Lemma cutoff_above_u32 (base : Z) : 2 <= base <= 36 -> UINT_MAX < ULONG_MAX / base.
Proof.
  intros Hb. unfold UINT_MAX, ULONG_MAX.
  apply Z.lt_le_trans with (m := 4294967296); [lia|].
  apply Z.div_le_lower_bound; lia.
Qed.

Lemma digits_loop_numeral (base : Z) (cs : list ascii) :
  2 <= base <= 36 ->
  forall (a : bool) (i : Z),
    0 <= i ->
    forallb (is_digit_of base) cs = true ->
    numeral_value base cs i <= UINT_MAX ->
    digits_loop base cs (mkAcc a (Some i))
    = mkAcc (a || match cs with [] => false | _ :: _ => true end)
            (Some (numeral_value base cs i)).
Proof.
  intros Hb. induction cs as [|c rest IH]; intros a i Hi Hall Hmax; simpl.
  - now rewrite orb_false_r.
  - simpl in Hall. apply andb_true_iff in Hall as [Hc Hrest].
    unfold is_digit_of in Hc. simpl in Hmax. unfold digit_of in Hmax |- *.
    destruct (digit_val c) as [d|] eqn:Ed; [|discriminate].
    rewrite Hc. pose proof (digit_val_range _ _ Ed) as Hd.
    assert (Hstep : i * base + d <= UINT_MAX).
    { assert (Hnn : 0 <= i * base + d) by (apply Z.add_nonneg_nonneg; [apply Z.mul_nonneg_nonneg|]; lia).
      pose proof (numeral_value_mono base rest ltac:(lia) (i * base + d) Hnn). lia. }
    assert (Hi' : i < ULONG_MAX / base).
    { pose proof (cutoff_above_u32 base Hb).
      assert (i <= i * base + d) by nia. lia. }
    unfold acc_step; simpl.
    replace (ULONG_MAX / base <? i) with false by (symmetry; apply Z.ltb_ge; lia).
    replace (i =? ULONG_MAX / base) with false by (symmetry; apply Z.eqb_neq; lia).
    simpl. rewrite IH by (assumption || lia).
    now rewrite orb_true_r.
Qed.

Lemma numeral_some (base : Z) (cs : list ascii) (v : Z) :
  1 <= base -> numeral base cs = Some v ->
  cs <> [] /\ forallb (is_digit_of base) cs = true
  /\ v = numeral_value base cs 0 /\ 0 <= v <= UINT_MAX.
Proof.
  intros Hb. unfold numeral. destruct cs as [|c rest]; [discriminate|].
  destruct (forallb (is_digit_of base) (c :: rest)
            && (numeral_value base (c :: rest) 0 <=? UINT_MAX)) eqn:E; [|discriminate].
  apply andb_true_iff in E as [Hall Hle]. apply Z.leb_le in Hle.
  intros H. injection H as Hv. subst v.
  split; [discriminate|]. split; [assumption|]. split; [reflexivity|].
  split; [apply (numeral_value_mono base (c :: rest)); lia|assumption].
Qed.

Lemma wrap32_small (v : Z) : 0 <= v <= UINT_MAX -> wrap32 v = v.
Proof. unfold wrap32, UINT_MAX. intros H. apply Z.mod_small. lia. Qed.

Lemma strtoul32_range (s : string) (base : Z) : 0 <= strtoul32 s base <= UINT_MAX.
Proof.
  unfold strtoul32, wrap32, UINT_MAX.
  pose proof (Z.mod_pos_bound (strtoul s base) 4294967296 ltac:(lia)). lia.
Qed.

(** Whenever the text after the whitespace carries no sign and the prefix
    rule selects base [b] and digits [ds], strtoul returns their value. *)
Lemma strtoul32_numeral (line : string) (cs ds : list ascii) (b v : Z) :
  skip_space (chars line) = cs ->
  take_sign cs = (false, cs) ->
  take_prefix 0 cs = (b, ds) ->
  2 <= b <= 36 ->
  numeral b ds = Some v ->
  strtoul32 line 0 = v.
Proof.
  intros Hsk Hsign Hpre Hb Hnum.
  apply numeral_some in Hnum as (Hne & Hall & Hv & Hrange); [|lia].
  unfold strtoul32, strtoul. rewrite Hsk, Hsign, Hpre.
  rewrite digits_loop_numeral by (try assumption; lia).
  rewrite <- Hv.
  destruct ds as [|d ds']; [contradiction|]. simpl.
  now apply wrap32_small.
Qed.

Lemma take_sign_digit (c : ascii) (rest : list ascii) :
  48 <= code c <= 57 -> take_sign (c :: rest) = (false, c :: rest).
Proof.
  intros H. unfold take_sign.
  replace (code c =? 45) with false by (symmetry; apply Z.eqb_neq; lia).
  replace (code c =? 43) with false by (symmetry; apply Z.eqb_neq; lia).
  reflexivity.
Qed.

(** The driver's reading of a line agrees with [line_value]. *)
Lemma strtoul32_line_value (line : string) (v : Z) :
  line_value line = Some v -> strtoul32 line 0 = v.
Proof.
  unfold line_value. destruct (skip_space (chars line)) as [|z rest] eqn:Hsk.
  - intros H; inversion H; subst.
    unfold strtoul32, strtoul. rewrite Hsk. reflexivity.
  - destruct (code z =? 48) eqn:Hz.
    + assert (Hsign : take_sign (z :: rest) = (false, z :: rest)).
      { apply Z.eqb_eq in Hz. apply take_sign_digit. lia. }
      destruct rest as [|x hs].
      * intros H.
        apply (strtoul32_numeral line [z] [z] 8 v Hsk Hsign); [|lia|exact H].
        unfold take_prefix. rewrite Hz. reflexivity.
      * destruct (is_x x) eqn:Hx; intros H.
        -- apply (strtoul32_numeral line (z :: x :: hs) hs 16 v Hsk Hsign); [|lia|exact H].
           unfold take_prefix. rewrite Hz, Hx. reflexivity.
        -- apply (strtoul32_numeral line (z :: x :: hs) (z :: x :: hs) 8 v Hsk Hsign);
             [|lia|exact H].
           unfold take_prefix. rewrite Hz, Hx. reflexivity.
    + intros H. pose proof H as Hnum.
      apply numeral_some in Hnum as (_ & Hall & _ & _); [|lia].
      simpl in Hall. apply andb_true_iff in Hall as [Hd _].
      apply decimal_digit_code in Hd; [|lia].
      apply (strtoul32_numeral line (z :: rest) (z :: rest) 10 v Hsk); [| |lia|exact H].
      * now apply take_sign_digit.
      * unfold take_prefix. rewrite Hz. reflexivity.
Qed.

(** No conversion: strtoul returns 0. *)
Lemma strtoul32_unparseable (line : string) :
  unparseable line = true -> strtoul32 line 0 = 0.
Proof.
  unfold unparseable, strtoul32, strtoul.
  destruct (take_sign (skip_space (chars line))) as [negative cs]. simpl.
  destruct cs as [|c rest]; [reflexivity|].
  intros Hc. apply negb_true_iff in Hc.
  assert (Hz : (code c =? 48) = false).
  { apply Z.eqb_neq. intros Heq. unfold is_digit_of, digit_val in Hc.
    rewrite Heq in Hc. discriminate. }
  unfold take_prefix. rewrite Hz. simpl.
  unfold is_digit_of in Hc.
  destruct (digit_val c) as [d|]; [rewrite Hc|]; reflexivity.
Qed.

End StrtoulFacts.

(** ** Lines of a file *)

Section GetlineFacts.

Lemma chars_append (a b : string) : chars (a +++ b) = chars a ++ chars b.
Proof.
  unfold chars. induction a as [|c a IH]; simpl; [reflexivity|]. now rewrite IH.
Qed.

Lemma getlines_line (l rest acc : list ascii) :
  forallb (fun c => negb (is_newline c)) l = true ->
  getlines (l ++ rest) acc = getlines rest (acc ++ l).
Proof.
  revert acc. induction l as [|c l IH]; intros acc Hl; simpl.
  - now rewrite app_nil_r.
  - simpl in Hl. apply andb_true_iff in Hl as [Hc Hl].
    apply negb_true_iff in Hc. rewrite Hc, IH by assumption.
    now rewrite <- app_assoc.
Qed.

(** A file of newline-terminated lines is read back line by line. *)
Lemma file_lines_unlines (ls : list string) :
  forallb no_newline ls = true -> file_lines (unlines ls) = ls.
Proof.
  unfold file_lines. induction ls as [|l ls IH]; intros Hls; simpl; [reflexivity|].
  simpl in Hls. apply andb_true_iff in Hls as [Hl Hls].
  rewrite !chars_append, getlines_line by exact Hl. simpl.
  unfold chars at 1. rewrite string_of_list_ascii_of_string.
  now rewrite IH.
Qed.

End GetlineFacts.

(** ** The -i option *)

Section InputFile.

Context {W : World}.

Lemma add_lines_observed (lines : list string) (u : Untwister) :
  m_observedOutputs (add_lines lines u)
  = m_observedOutputs u ++ map (fun line => strtoul32 line 0) lines.
Proof.
  unfold add_lines. revert u. induction lines as [|line lines IH]; intros u; simpl.
  - now rewrite app_nil_r.
  - rewrite IH. simpl. now rewrite <- app_assoc.
Qed.

Lemma handle_option_i (l : locals) (path : string) (o : Z) :
  handle_option l (mkResult (ch "i") path o) = case_i l path.
Proof. reflexivity. Qed.

(** C6, as amended.  The -i option reads the file line by line and appends
    one value per line, in order, to the observation sequence, without
    output and without leaving the option loop.  The value of a line is its
    reading by strtoul in base 0, reduced to 32 bits: after leading
    whitespace, hexadecimal behind a 0x prefix, octal behind a leading 0,
    decimal otherwise; a blank line reads as 0. *)
Theorem input_lines_appended_in_order (l : locals) (path content : string) (o : Z) :
  read_file path = Some content ->
  let u' := add_lines (file_lines content) (untwister l) in
  handle_option l (mkResult (ch "i") path o) = ([], Next (with_untwister l u'))
  /\ m_observedOutputs u'
     = m_observedOutputs (untwister l)
       ++ map (fun line => strtoul32 line 0) (file_lines content)
  /\ (forall line, 0 <= strtoul32 line 0 <= UINT_MAX)
  /\ (forall line v, In line (file_lines content) ->
        line_value line = Some v -> strtoul32 line 0 = v)
  /\ (forall ls, content = unlines ls -> forallb no_newline ls = true ->
        file_lines content = ls).
Proof.
  intros Hread u'. rewrite handle_option_i. unfold case_i. rewrite Hread.
  split; [reflexivity|]. split; [apply add_lines_observed|]. split; [|split].
  - intros line. apply strtoul32_range.
  - intros line v _ Hv. now apply strtoul32_line_value.
  - intros ls -> Hls. now apply file_lines_unlines.
Qed.

(** The digit loop stops at the first character that is not a digit of the
    base. *)
Lemma digits_loop_stop (base : Z) (ds : list ascii) (c : ascii) (rest : list ascii) (a : acc) :
  is_digit_of base c = false ->
  digits_loop base (ds ++ c :: rest) a = digits_loop base ds a.
Proof.
  intros Hc. revert a. induction ds as [|d ds IH]; intros a; cbn [app digits_loop].
  - unfold is_digit_of in Hc. destruct (digit_val c) as [x|]; [now rewrite Hc|reflexivity].
  - destruct (digit_val d) as [x|]; [|reflexivity].
    destruct (x <? base); [apply IH|reflexivity].
Qed.

Lemma skip_space_app (a b : list ascii) :
  skip_space a <> [] -> skip_space (a ++ b) = skip_space a ++ b.
Proof.
  induction a as [|c a IH]; cbn [skip_space app]; [contradiction|].
  destruct (isspace c); [exact IH|reflexivity].
Qed.

(** Whenever the text after the whitespace carries no sign, the prefix rule
    selects base [b] and the digits [ds] are followed by a character that is
    not a digit of that base, strtoul returns the value of [ds]. *)
Lemma strtoul32_numeral_stop
      (line : string) (cs ds : list ascii) (c : ascii) (rest : list ascii) (b v : Z) :
  skip_space (chars line) = cs ->
  take_sign cs = (false, cs) ->
  take_prefix 0 cs = (b, ds ++ c :: rest) ->
  2 <= b <= 36 ->
  numeral b ds = Some v ->
  is_digit_of b c = false ->
  strtoul32 line 0 = v.
Proof.
  intros Hsk Hsign Hpre Hb Hnum Hc.
  apply numeral_some in Hnum as (Hne & Hall & Hv & Hrange); [|lia].
  unfold strtoul32, strtoul. rewrite Hsk, Hsign, Hpre.
  rewrite (digits_loop_stop b ds c rest _ Hc).
  rewrite digits_loop_numeral by (try assumption; lia).
  rewrite <- Hv.
  destruct ds as [|d ds']; [contradiction|]. simpl.
  now apply wrap32_small.
Qed.

(** A number followed by a character that ends it is read as that number,
    whatever comes after. *)
Lemma strtoul32_leading_number (pre : string) (c : ascii) (rest : string) (v : Z) :
  skip_space (chars pre) <> [] ->
  line_value pre = Some v ->
  ends_number (skip_space (chars pre)) c = true ->
  strtoul32 (pre +++ String c rest) 0 = v.
Proof.
  intros Hne Hv Hend.
  assert (Hsk : skip_space (chars (pre +++ String c rest))
                = skip_space (chars pre) ++ c :: chars rest).
  { rewrite chars_append. now apply skip_space_app. }
  unfold line_value in Hv. unfold ends_number in Hend.
  apply andb_true_iff in Hend as [Hdigit Hx].
  apply negb_true_iff in Hdigit. apply negb_true_iff in Hx.
  destruct (skip_space (chars pre)) as [|z r]; [contradiction|].
  unfold base_of in Hdigit.
  destruct (code z =? 48) eqn:Hz.
  - assert (Hsign : forall t, take_sign (z :: t) = (false, z :: t)).
    { intros t. apply Z.eqb_eq in Hz. apply take_sign_digit. lia. }
    destruct r as [|x hs].
    + cbn [andb] in Hx.
      apply (strtoul32_numeral_stop _ (z :: c :: chars rest) [z] c (chars rest) 8 v Hsk
               (Hsign _)); [|lia|exact Hv|exact Hdigit].
      unfold take_prefix. now rewrite Hz, Hx.
    + destruct (is_x x) eqn:Hix.
      * apply (strtoul32_numeral_stop _ (z :: x :: hs ++ c :: chars rest) hs c (chars rest)
                 16 v Hsk (Hsign _)); [|lia|exact Hv|exact Hdigit].
        unfold take_prefix. now rewrite Hz, Hix.
      * apply (strtoul32_numeral_stop _ (z :: x :: hs ++ c :: chars rest) (z :: x :: hs) c
                 (chars rest) 8 v Hsk (Hsign _)); [|lia|exact Hv|exact Hdigit].
        unfold take_prefix. now rewrite Hz, Hix.
  - pose proof Hv as Hnum.
    apply numeral_some in Hnum as (_ & Hall & _ & _); [|lia].
    cbn [forallb] in Hall. apply andb_true_iff in Hall as [Hd _].
    apply decimal_digit_code in Hd; [|lia].
    apply (strtoul32_numeral_stop _ (z :: r ++ c :: chars rest) (z :: r) c (chars rest)
             10 v Hsk); [| |lia|exact Hv|exact Hdigit].
    + now apply take_sign_digit.
    + unfold take_prefix. now rewrite Hz.
Qed.

(** A line on which strtoul converts nothing is malformed. *)
Lemma unparseable_malformed (line : string) :
  unparseable line = true -> malformed line = true.
Proof.
  unfold unparseable, malformed, decimal_or_hex.
  destruct (skip_space (chars line)) as [|z r]; [reflexivity|].
  assert (Hz : snd (take_sign (z :: r)) = z :: r -> is_digit_of 10 z = false ->
               numeral 10 (z :: r) = None).
  { intros _ Hd. unfold numeral. cbn [forallb]. now rewrite Hd. }
  unfold take_sign.
  destruct (code z =? 45) eqn:Hminus.
  - intros _. apply Z.eqb_eq in Hminus.
    assert (Hd : is_digit_of 10 z = false).
    { unfold is_digit_of, digit_val. rewrite Hminus. reflexivity. }
    assert (H48 : (code z =? 48) = false) by (apply Z.eqb_neq; lia).
    destruct r as [|x hs]; [|rewrite H48; cbn [andb]];
      unfold numeral; cbn [forallb]; now rewrite Hd.
  - destruct (code z =? 43) eqn:Hplus.
    + intros _. apply Z.eqb_eq in Hplus.
      assert (Hd : is_digit_of 10 z = false).
      { unfold is_digit_of, digit_val. rewrite Hplus. reflexivity. }
      assert (H48 : (code z =? 48) = false) by (apply Z.eqb_neq; lia).
      destruct r as [|x hs]; [|rewrite H48; cbn [andb]];
        unfold numeral; cbn [forallb]; now rewrite Hd.
    + cbn [snd]. intros Hd. apply negb_true_iff in Hd.
      assert (H48 : (code z =? 48) = false).
      { apply Z.eqb_neq. intros Heq. unfold is_digit_of, digit_val in Hd.
        rewrite Heq in Hd. discriminate. }
      destruct r as [|x hs]; [|rewrite H48; cbn [andb]];
        unfold numeral; cbn [forallb]; now rewrite Hd.
Qed.

(** C7, as amended.  No line of the input file is rejected: -i appends one
    value per line, what strtoul reads from it in base 0 reduced to 32 bits,
    prints nothing and goes on with the option loop.  A line that does not
    start with a number (after whitespace and an optional sign) is malformed
    and contributes 0.  A line that starts with a number followed by a
    character that ends it contributes that number, whatever follows. *)
Theorem malformed_line_never_rejected (l : locals) (path content : string) (o : Z) :
  read_file path = Some content ->
  let u' := add_lines (file_lines content) (untwister l) in
  handle_option l (mkResult (ch "i") path o) = ([], Next (with_untwister l u'))
  /\ m_observedOutputs u'
     = m_observedOutputs (untwister l)
       ++ map (fun line => strtoul32 line 0) (file_lines content)
  /\ (forall line, unparseable line = true ->
        malformed line = true /\ strtoul32 line 0 = 0)
  /\ (forall pre c rest v,
        skip_space (chars pre) <> [] ->
        line_value pre = Some v ->
        ends_number (skip_space (chars pre)) c = true ->
        strtoul32 (pre +++ String c rest) 0 = v).
Proof.
  intros Hread u'. rewrite handle_option_i. unfold case_i. rewrite Hread.
  split; [reflexivity|]. split; [apply add_lines_observed|]. split.
  - intros line Hbad. split; [now apply unparseable_malformed|].
    now apply strtoul32_unparseable.
  - intros pre c rest v Hne Hv Hend. now apply strtoul32_leading_number.
Qed.

End InputFile.

(** C6 as stated fails on a decimal number written with a leading zero: the
    line 010 denotes ten, and the driver reads eight. *)
Lemma leading_zero_read_as_octal :
  decimal_or_hex "010" = Some 10
  /\ file_lines ("010" +++ endl) = ["010"]
  /\ m_observedOutputs
       (add_lines (file_lines ("010" +++ endl)) (@new_Untwister Sample.world)) = [8]
  /\ strtoul32 "010" 0 <> 10.
Proof. repeat split. discriminate. Qed.

Lemma input_lines_appended_in_order_witness :
  let l := @locals0 Sample.world in
  @read_file Sample.world "observed.txt"
  = Some ("1804289383" +++ endl +++ "0x327b23c6" +++ endl +++ "010" +++ endl
          +++ "oops" +++ endl)
  /\ m_observedOutputs
       (add_lines (file_lines ("1804289383" +++ endl +++ "0x327b23c6" +++ endl
                               +++ "010" +++ endl +++ "oops" +++ endl))
                  (untwister l))
     = [1804289383; 846930886; 8; 0].
Proof.
  split; [reflexivity|].
  pose proof (@input_lines_appended_in_order Sample.world (@locals0 Sample.world)
                "observed.txt" _ QUESTION eq_refl) as H.
  destruct H as (_ & Hobs & _). rewrite Hobs. reflexivity.
Defined.

(** C7 as stated fails on a malformed line that starts with a number: the
    line 12abc is not a number, and the driver appends 12, not 0. *)
Lemma malformed_line_with_leading_number :
  malformed "12abc" = true
  /\ file_lines ("12abc" +++ endl) = ["12abc"]
  /\ m_observedOutputs
       (add_lines (file_lines ("12abc" +++ endl)) (@new_Untwister Sample.world)) = [12]
  /\ strtoul32 "12abc" 0 <> 0.
Proof. repeat split. discriminate. Qed.

Lemma malformed_line_never_rejected_witness :
  (exists u',
      @handle_option Sample.world (@locals0 Sample.world)
                     (mkResult (ch "i") "observed.txt" QUESTION)
      = ([], Next (with_untwister (@locals0 Sample.world) u'))
      /\ m_observedOutputs u' = [1804289383; 846930886; 8; 0])
  /\ (malformed "oops" = true /\ strtoul32 "oops" 0 = 0)
  /\ strtoul32 "12abc" 0 = 12
  /\ strtoul32 "0x1fz" 0 = 31
  /\ strtoul32 "  017 " 0 = 15.
Proof.
  destruct (@malformed_line_never_rejected Sample.world (@locals0 Sample.world)
              "observed.txt" _ QUESTION eq_refl) as (Hrun & Hobs & Hzero & Hnum).
  split; [|split; [|split; [|split]]].
  - eexists. split; [exact Hrun|]. rewrite Hobs. reflexivity.
  - apply Hzero. reflexivity.
  - apply (Hnum "12" "a"%char "bc" 12); [discriminate|reflexivity|reflexivity].
  - apply (Hnum "0x1f" "z"%char EmptyString 31); [discriminate|reflexivity|reflexivity].
  - apply (Hnum "  017" " "%char EmptyString 15); [discriminate|reflexivity|reflexivity].
Defined.

(** ** The option loop *)

Section OptionLoop.

Context {W : World}.

Lemma quiet_app (a b : trace) : quiet (a ++ b) = quiet a && quiet b.
Proof. apply forallb_app. Qed.

Lemma usage_names_quiet (names : list string) (index : nat) :
  quiet (usage_names names index) = true.
Proof.
  revert index. induction names as [|n names IH]; intros index; [reflexivity|].
  simpl. destruct index; simpl; apply IH.
Qed.

Lemma Usage_quiet (u : Untwister) : quiet (Usage u) = true.
Proof.
  unfold Usage. rewrite !quiet_app, usage_names_quiet. reflexivity.
Qed.

(** Every case of the switch: which of its effects matter later. *)
Ltac switch_cases l r :=
  unfold handle_option;
  repeat match goal with
         | |- context [if ?c =? ?k then _ else _] => destruct (c =? k) eqn:?
         end;
  unfold case_g, case_u, case_r, case_d, case_i, case_t, case_c, case_question;
  repeat match goal with
         | |- context [if ?b then _ else _] => destruct b eqn:?
         | |- context [match read_file ?p with _ => _ end] => destruct (read_file p) eqn:?
         end.

Lemma handle_option_quiet (l : locals) (r : result) :
  quiet (fst (handle_option l r)) = true.
Proof.
  switch_cases l r; simpl; try reflexivity; try apply Usage_quiet.
Qed.

Lemma process_options_quiet (rs : list result) (l : locals) :
  quiet (fst (process_options rs l)) = true.
Proof.
  revert l. induction rs as [|r rs IH]; intros l; simpl; [reflexivity|].
  pose proof (handle_option_quiet l r) as Hq.
  destruct (handle_option l r) as [out [l'|code]]; simpl in *; [|exact Hq].
  specialize (IH l'). destruct (process_options rs l') as [out' f']; simpl in *.
  now rewrite quiet_app, Hq, IH.
Qed.

(** An invariant of the locals, kept by every option that satisfies [Q], is
    kept by the loop. *)
Lemma process_options_invariant (P : locals -> Prop) (Q : result -> Prop) :
  (forall l r out l', Q r -> P l -> handle_option l r = (out, Next l') -> P l') ->
  forall rs l out l',
    (forall r, In r rs -> Q r) -> P l ->
    process_options rs l = (out, Next l') -> P l'.
Proof.
  intros Hstep. induction rs as [|r rs IH]; intros l out l' HQ HP Hrun; simpl in Hrun.
  - now inversion Hrun; subst.
  - destruct (handle_option l r) as [o1 [l1|code]] eqn:Hh; [|discriminate].
    destruct (process_options rs l1) as [o2 f2] eqn:Hrest.
    inversion Hrun; subst.
    eapply IH; [| |exact Hrest].
    + intros r' Hin. apply HQ. now right.
    + eapply Hstep; [apply HQ; now left|exact HP|exact Hh].
Qed.

Lemma process_options_app (a b : list result) (l : locals) (out : trace) (l' : locals) :
  process_options (a ++ b) l = (out, Next l') ->
  exists out1 l1 out2,
    process_options a l = (out1, Next l1)
    /\ process_options b l1 = (out2, Next l')
    /\ out = out1 ++ out2.
Proof.
  revert l out. induction a as [|r a IH]; intros l out Hrun; simpl in *.
  - exists [], l, out. auto.
  - destruct (handle_option l r) as [o1 [l1|code]] eqn:Hh; [|discriminate].
    destruct (process_options (a ++ b) l1) as [o2 f2] eqn:Hrest.
    inversion Hrun; subst.
    destruct (IH l1 o2 Hrest) as (out1 & l2 & out2 & Ha & Hb & ->).
    exists (o1 ++ out1), l2, out2. rewrite Ha. split; [reflexivity|].
    split; [exact Hb|]. now rewrite app_assoc.
Qed.

(** Only -u writes the bounds of the seed range. *)
Lemma handle_option_keeps_range (l : locals) (r : result) (out : trace) (l' : locals) :
  opt_c r <> ch "u" ->
  handle_option l r = (out, Next l') ->
  lowerBoundSeed l' = lowerBoundSeed l /\ upperBoundSeed l' = upperBoundSeed l.
Proof.
  intros Hu. revert out l'. switch_cases l r; intros out l' H;
    try discriminate; try (inversion H; subst; simpl; now auto).
  match goal with
  | E : (opt_c r =? ch "u") = true |- _ => apply Z.eqb_eq in E; contradiction
  end.
Qed.

(** Only -g writes the seed and the generation flag, and it sets the flag. *)
Lemma handle_option_keeps_seed (l : locals) (r : result) (out : trace) (l' : locals) :
  opt_c r <> ch "g" ->
  handle_option l r = (out, Next l') ->
  seed l' = seed l /\ generateFlag l' = generateFlag l.
Proof.
  intros Hg. revert out l'. switch_cases l r; intros out l' H;
    try discriminate; try (inversion H; subst; simpl; now auto).
  match goal with
  | E : (opt_c r =? ch "g") = true |- _ => apply Z.eqb_eq in E; contradiction
  end.
Qed.

Lemma handle_option_g (l : locals) (arg : string) (o : Z) :
  handle_option l (mkResult (ch "g") arg o)
  = ([], Next (mkLocals (lowerBoundSeed l) (upperBoundSeed l) (strtoul32 arg 10)
                        true (untwister l) (clock l))).
Proof. reflexivity. Qed.

End OptionLoop.

(** ** The seed range *)

Section SeedRange.

Context {W : World}.

(** C5.  When both readings of the clock made by the -u case return the
    same second [now], and the two bounds fit in 32 bits, -u sets the seed
    range to now - 31536000 and now + 31536000 and touches nothing else. *)
Theorem u_option_one_year_around_now (l : locals) (arg : string) (o now : Z) :
  time_at (clock l) = now ->
  time_at (S (clock l)) = now ->
  31536000 <= now ->
  now + 31536000 <= UINT_MAX ->
  exists l',
    handle_option l (mkResult (ch "u") arg o) = ([], Next l')
    /\ lowerBoundSeed l' = now - 31536000
    /\ upperBoundSeed l' = now + 31536000
    /\ seed l' = seed l
    /\ generateFlag l' = generateFlag l
    /\ untwister l' = untwister l.
Proof.
  intros H1 H2 Hlo Hhi. eexists. split; [reflexivity|]. simpl.
  rewrite H1, H2. unfold ONE_YEAR.
  repeat split; apply wrap32_small; unfold UINT_MAX in *; lia.
Qed.

Lemma process_options_default_range (rs : list result) (out : trace) (l : locals) :
  (forall r, In r rs -> opt_c r <> ch "u") ->
  process_options rs locals0 = (out, Next l) ->
  lowerBoundSeed l = 0 /\ upperBoundSeed l = UINT_MAX.
Proof.
  intros Hu Hrun.
  apply (process_options_invariant
           (fun l => lowerBoundSeed l = 0 /\ upperBoundSeed l = UINT_MAX)
           (fun r => opt_c r <> ch "u")) with (rs := rs) (l := locals0) (out := out);
    try assumption; [|now split].
  intros l0 r o l1 Hr [Hlo Hhi] Hh.
  destruct (handle_option_keeps_range l0 r o l1 Hr Hh) as [-> ->]. now split.
Qed.

Lemma wait_running_quiet (loads : list bool) (t : trace) :
  wait_running loads = Some t -> quiet t = true.
Proof.
  revert t. induction loads as [|b loads IH]; intros t H; simpl in H; [discriminate|].
  destruct b; [now inversion H|].
  destruct (wait_running loads) as [t'|]; [|discriminate].
  inversion H; subst. simpl. now apply IH.
Qed.

Lemma poll_loop_quiet (totalWork : Z) (ps : list Poll) (st : progress)
      (t : trace) (st' : progress) :
  poll_loop totalWork ps st = Some (t, st') -> quiet t = true.
Proof.
  revert st t. induction ps as [|p ps IH]; intros st t H; simpl in H; [discriminate|].
  destruct (poll_completed p); [now inversion H|].
  destruct (poll_body totalWork p st) as [out st1] eqn:Hb.
  destruct (poll_loop totalWork ps st1) as [[out' st2]|] eqn:Hl; [|discriminate].
  inversion H; subst. rewrite quiet_app. simpl. rewrite (IH _ _ Hl).
  unfold poll_body in Hb.
  destruct (if Double.ltb Double.zero (poll_time_span p) then _ else _) in Hb.
  inversion Hb; subst. reflexivity.
Qed.

Lemma DisplayProgress_quiet (totalWork : Z) (t : trace) :
  DisplayProgress totalWork = Some t -> quiet t = true.
Proof.
  unfold DisplayProgress.
  destruct (wait_running running_loads) as [w|] eqn:Hw; [|discriminate].
  destruct (poll_loop totalWork polls progress0) as [[out st]|] eqn:Hp; [|discriminate].
  intros H; inversion H; subst.
  rewrite !quiet_app, (wait_running_quiet _ _ Hw), (poll_loop_quiet _ _ _ _ _ Hp).
  reflexivity.
Qed.

Lemma found_lines_quiet (results : list (Z * double)) :
  quiet (map found_line results) = true.
Proof. induction results as [|r rs IH]; simpl; [reflexivity|exact IH]. Qed.

Lemma print_sample_quiet (vs : list Z) : quiet (print_sample vs) = true.
Proof. induction vs as [|v vs IH]; simpl; [reflexivity|exact IH]. Qed.

Lemma quiet_not_in (t : trace) (lo hi : Z) :
  quiet t = true -> ~ In (CallBruteforce lo hi) t.
Proof.
  intros Hq Hin. unfold quiet in Hq. rewrite forallb_forall in Hq.
  specialize (Hq _ Hin). discriminate.
Qed.

(** The only call of [bruteforce] a run can make is the one of [FindSeed],
    on the bounds the option loop left. *)
Lemma FindSeed_bruteforce (u : Untwister) (a b lo hi : Z) :
  In (CallBruteforce lo hi) (fst (FindSeed u a b)) -> lo = a /\ hi = b.
Proof.
  unfold FindSeed.
  destruct (DisplayProgress (wrap32 (b - a))) as [shown|] eqn:Hd; simpl.
  - intros [H|[H|[H|H]]]; try discriminate; [inversion H; now split|].
    exfalso. revert H. apply quiet_not_in.
    rewrite quiet_app, (DisplayProgress_quiet _ _ Hd). simpl. apply found_lines_quiet.
  - intros [H|[H|[H|[]]]]; try discriminate. inversion H; now split.
Qed.

Lemma after_options_bruteforce (l : locals) (lo hi : Z) :
  In (CallBruteforce lo hi) (fst (after_options l)) ->
  lo = lowerBoundSeed l /\ hi = upperBoundSeed l.
Proof.
  unfold after_options.
  destruct (generateFlag l).
  - destruct (observed_empty (untwister l)); cbn [fst];
      intros [H|H]; try discriminate; exfalso; revert H;
      apply quiet_not_in, print_sample_quiet.
  - destruct (observed_empty (untwister l)); cbn [fst].
    + intros H. exfalso. revert H. apply quiet_not_in.
      rewrite quiet_app, Usage_quiet. reflexivity.
    + destruct (inferState (untwister l)); cbn [fst].
      * intros [H|[]]. discriminate.
      * destruct (FindSeed (untwister l) (lowerBoundSeed l) (upperBoundSeed l))
          as [out returned] eqn:Hf. cbn [fst].
        intros [H|H]; [discriminate|].
        apply (FindSeed_bruteforce (untwister l)). now rewrite Hf.
Qed.

(** C10.  In a run without -u, every call of the brute-force search is on
    the range with lower bound 0 and upper bound 4294967295; the upper bound
    of a search job being exclusive, the seed 4294967295 is not among the
    seeds it evaluates. *)
Theorem default_range_excludes_last_seed (rs : list result) (lo hi : Z) :
  (forall r, In r rs -> opt_c r <> ch "u") ->
  In (CallBruteforce lo hi) (fst (run_options rs)) ->
  lo = 0 /\ hi = 4294967295 /\ evaluates lo hi 4294967295 = false.
Proof.
  intros Hu Hin. unfold run_options in Hin.
  destruct (process_options rs locals0) as [out [l|code]] eqn:Hrun.
  - destruct (after_options l) as [out' o] eqn:Ha. simpl in Hin.
    apply in_app_or in Hin as [Hin|Hin].
    + exfalso. revert Hin. apply quiet_not_in.
      pose proof (process_options_quiet rs locals0) as Hq. now rewrite Hrun in Hq.
    + destruct (process_options_default_range rs out l Hu Hrun) as [Hlo Hhi].
      destruct (after_options_bruteforce l lo hi) as [-> ->]; [now rewrite Ha|].
      rewrite Hlo, Hhi. now repeat split.
  - exfalso. revert Hin. apply quiet_not_in.
    pose proof (process_options_quiet rs locals0) as Hq. now rewrite Hrun in Hq.
Qed.

End SeedRange.

Lemma u_option_one_year_around_now_witness :
  exists l',
    @handle_option Sample.world (@locals0 Sample.world) (mkResult (ch "u") EmptyString QUESTION)
    = ([], Next l')
    /\ lowerBoundSeed l' = 1761964000
    /\ upperBoundSeed l' = 1825036000.
Proof.
  destruct (@u_option_one_year_around_now Sample.world (@locals0 Sample.world)
              EmptyString QUESTION Sample.now eq_refl eq_refl)
    as (l' & Hrun & Hlo & Hhi & _).
  - unfold Sample.now. lia.
  - unfold Sample.now, UINT_MAX. lia.
  - exists l'. split; [exact Hrun|]. split; [exact Hlo|exact Hhi].
Defined.

Lemma default_range_excludes_last_seed_witness :
  In (CallBruteforce 0 4294967295)
     (fst (@main Sample.world ["untwister"; "-i"; "observed.txt"; "-t"; "2"]))
  /\ evaluates 0 4294967295 4294967295 = false.
Proof.
  assert (Hin : In (CallBruteforce 0 4294967295)
                   (fst (@main Sample.world ["untwister"; "-i"; "observed.txt"; "-t"; "2"]))).
  { vm_compute. right. right. right. now left. }
  split; [exact Hin|].
  refine (proj2 (proj2 (@default_range_excludes_last_seed Sample.world
                          (getopt_all ["untwister"; "-i"; "observed.txt"; "-t"; "2"])
                          0 4294967295 _ Hin))).
  intros r [<-|[<-|[]]]; vm_compute; discriminate.
Defined.

(** ** After the option loop *)

Section Dispatch.

Context {W : World}.

Lemma run_options_next (rs : list result) (out0 : trace) (l : locals) :
  process_options rs locals0 = (out0, Next l) ->
  run_options rs = (out0 ++ fst (after_options l), snd (after_options l)).
Proof.
  intros H. unfold run_options. rewrite H. now destruct (after_options l).
Qed.

Lemma run_options_return (rs : list result) (out0 : trace) (code : Z) :
  process_options rs locals0 = (out0, Return code) ->
  run_options rs = (out0, Exit code).
Proof. intros H. unfold run_options. now rewrite H. Qed.

Lemma FindSeed_calls_bruteforce (u : Untwister) (lo hi : Z) :
  In (CallBruteforce lo hi) (fst (FindSeed u lo hi)).
Proof.
  unfold FindSeed. destruct (DisplayProgress (wrap32 (hi - lo))); cbn [fst];
    right; right; now left.
Qed.

Lemma FindSeed_returns (u : Untwister) (lo hi : Z) (shown : trace) :
  DisplayProgress (wrap32 (hi - lo)) = Some shown -> snd (FindSeed u lo hi) = true.
Proof. intros H. unfold FindSeed. now rewrite H. Qed.

(** C2.  When the option loop ends with observations loaded and generation
    mode off, the driver calls state inference first.  If it succeeds the run
    ends there, with exit code 0 and no call of the brute-force search.  If
    it fails the driver goes on to [FindSeed], which calls the brute-force
    search on the bounds the option loop configured, and the run exits with
    code 0 as soon as the progress thread ends. *)
Theorem inference_first_then_bruteforce (rs : list result) (out0 : trace) (l : locals) :
  process_options rs locals0 = (out0, Next l) ->
  generateFlag l = false ->
  observed_empty (untwister l) = false ->
  (inferState (untwister l) = true ->
     run_options rs = (out0 ++ [CallInferState], Exit EXIT_SUCCESS)
     /\ quiet (fst (run_options rs)) = true)
  /\ (inferState (untwister l) = false ->
        let found := FindSeed (untwister l) (lowerBoundSeed l) (upperBoundSeed l) in
        run_options rs
        = (out0 ++ CallInferState :: fst found,
           if snd found then Exit EXIT_SUCCESS else Blocked)
        /\ In (CallBruteforce (lowerBoundSeed l) (upperBoundSeed l)) (fst found)
        /\ (forall shown,
              DisplayProgress (wrap32 (upperBoundSeed l - lowerBoundSeed l)) = Some shown ->
              snd (run_options rs) = Exit EXIT_SUCCESS)).
Proof.
  intros Hrun Hgen Hobs.
  pose proof (process_options_quiet rs locals0) as Hq. rewrite Hrun in Hq. simpl in Hq.
  rewrite (run_options_next rs out0 l Hrun).
  unfold after_options. rewrite Hgen, Hobs. split; intros Hinf; rewrite Hinf.
  - cbn [fst snd]. split; [reflexivity|]. now rewrite quiet_app, Hq.
  - cbv zeta.
    destruct (FindSeed (untwister l) (lowerBoundSeed l) (upperBoundSeed l))
      as [out returned] eqn:Hf.
    cbn [fst snd]. split; [reflexivity|]. split.
    + pose proof (FindSeed_calls_bruteforce (untwister l) (lowerBoundSeed l)
                    (upperBoundSeed l)) as Hin.
      now rewrite Hf in Hin.
    + intros shown Hshown.
      pose proof (FindSeed_returns (untwister l) _ _ shown Hshown) as Hret.
      rewrite Hf in Hret. simpl in Hret. now rewrite Hret.
Qed.

Lemma process_options_cons (r : result) (rs : list result) (l : locals) :
  process_options (r :: rs) l
  = let '(out, f) := handle_option l r in
    match f with
    | Return code => (out, Return code)
    | Next l' => let '(out', f') := process_options rs l' in (out ++ out', f')
    end.
Proof. reflexivity. Qed.

Lemma process_options_keeps_generate (rs : list result) (l : locals) (out : trace) (l' : locals) :
  (forall r, In r rs -> opt_c r <> ch "g") ->
  process_options rs l = (out, Next l') ->
  seed l' = seed l /\ generateFlag l' = generateFlag l.
Proof.
  intros Hg Hrun.
  apply (process_options_invariant
           (fun x => seed x = seed l /\ generateFlag x = generateFlag l)
           (fun r => opt_c r <> ch "g")) with (rs := rs) (l := l) (out := out);
    try assumption; [|now split].
  intros l0 r o l1 Hr [Hs Hf] Hh.
  destruct (handle_option_keeps_seed l0 r o l1 Hr Hh) as [-> ->]. now split.
Qed.

(** C3.  When the options hold a -g (the last one with argument [arg]) and
    the option loop runs to its end, the driver is in generation mode with
    seed strtoul(arg).  With no observation loaded it takes the sample
    generated from that seed, otherwise the sample continued from the
    inferred state; it prints each value of the sample followed by a newline,
    nothing else, and exits with code 0. *)
Theorem generation_mode_prints_sample
  (before after : list result) (arg : string) (o : Z) (out0 : trace) (l : locals) :
  (forall r, In r after -> opt_c r <> ch "g") ->
  process_options (before ++ mkResult (ch "g") arg o :: after) locals0 = (out0, Next l) ->
  generateFlag l = true
  /\ seed l = strtoul32 arg 10
  /\ run_options (before ++ mkResult (ch "g") arg o :: after)
     = (out0
        ++ (if observed_empty (untwister l)
            then CallGenerateSampleFromSeed (strtoul32 arg 10)
                 :: map (fun v => Stdout (dec v +++ endl))
                        (generateSampleFromSeed (untwister l) (strtoul32 arg 10))
            else CallGenerateSampleFromState
                 :: map (fun v => Stdout (dec v +++ endl))
                        (generateSampleFromState (untwister l))),
        Exit 0).
Proof.
  intros Hafter Hrun.
  destruct (process_options_app _ _ _ _ _ Hrun) as (out1 & l1 & out2 & _ & Hb & _).
  rewrite process_options_cons, handle_option_g in Hb.
  destruct (process_options after _) as [o2 f2] eqn:Hrest.
  inversion Hb; subst.
  destruct (process_options_keeps_generate _ _ _ _ Hafter Hrest) as [Hseed Hflag].
  simpl in Hseed, Hflag.
  split; [exact Hflag|]. split; [exact Hseed|].
  rewrite (run_options_next _ _ _ Hrun).
  unfold after_options. rewrite Hflag, Hseed.
  now destruct (observed_empty (untwister l)).
Qed.

Lemma FindSeed_shown (u : Untwister) (lo hi : Z) (shown : trace) :
  DisplayProgress (wrap32 (hi - lo)) = Some shown ->
  FindSeed u lo hi
  = ([ Stdout (INFO +++ "Looking for seed using " +++ BOLD +++ m_prng u +++ RESET +++ endl);
       Stdout (INFO +++ "Spawning " +++ dec (m_threads u) +++ " worker thread(s) ..." +++ endl);
       CallBruteforce lo hi ]
     ++ shown
     ++ Stdout (INFO +++ "Completed in " +++ dec elapsed_seconds +++ " second(s)" +++ endl)
     :: map found_line (bruteforce u lo hi),
     true).
Proof. intros H. unfold FindSeed. now rewrite H. Qed.

(** C8.  When the progress thread ends, [FindSeed] returns, and the last
    thing it prints, after the line with the elapsed time, is one line per
    result of the brute-force search, in the order of the results: the
    success marker, then
    Found seed <N> with a confidence of <P>% and a newline. *)
Theorem one_line_per_result (u : Untwister) (lo hi : Z) (shown : trace) :
  DisplayProgress (wrap32 (hi - lo)) = Some shown ->
  FindSeed u lo hi
  = ([ Stdout (INFO +++ "Looking for seed using " +++ BOLD +++ m_prng u +++ RESET +++ endl);
       Stdout (INFO +++ "Spawning " +++ dec (m_threads u) +++ " worker thread(s) ..." +++ endl);
       CallBruteforce lo hi ]
     ++ shown
     ++ [Stdout (INFO +++ "Completed in " +++ dec elapsed_seconds +++ " second(s)" +++ endl)]
     ++ map (fun r => Stdout (SUCCESS +++ "Found seed " +++ dec (fst r)
                              +++ " with a confidence of " +++ show_double (snd r)
                              +++ "%" +++ endl))
            (bruteforce u lo hi),
     true).
Proof. intros H. now rewrite (FindSeed_shown u lo hi shown H). Qed.

End Dispatch.

Lemma inference_first_then_bruteforce_witness :
  exists out0 l,
    @process_options Sample.world (getopt_all ["untwister"; "-i"; "observed.txt"])
                     (@locals0 Sample.world) = (out0, Next l)
    /\ @inferState Sample.world (untwister l) = false
    /\ In (CallBruteforce 0 4294967295)
          (fst (@FindSeed Sample.world (untwister l) (lowerBoundSeed l) (upperBoundSeed l)))
    /\ snd (@main Sample.world ["untwister"; "-i"; "observed.txt"]) = Exit EXIT_SUCCESS.
Proof.
  eexists. eexists. split; [vm_compute; reflexivity|].
  split; [reflexivity|].
  match goal with
  | |- In _ (fst (FindSeed (untwister ?l) _ _)) /\ _ =>
      destruct (@inference_first_then_bruteforce Sample.world
                  (getopt_all ["untwister"; "-i"; "observed.txt"]) [] l
                  eq_refl eq_refl eq_refl) as [_ Hfail]
  end.
  destruct (Hfail eq_refl) as (_ & Hin & Hexit).
  split; [exact Hin|].
  unfold main. eapply Hexit. vm_compute. reflexivity.
Defined.

Lemma generation_mode_prints_sample_witness :
  @main Sample.world ["untwister"; "-d"; "20"; "-g"; "42"]
  = ([ Stdout ("[*] Depth set to: 20" +++ endl);
       CallGenerateSampleFromSeed 42;
       Stdout ("42" +++ endl);
       Stdout ("43" +++ endl) ],
     Exit 0).
Proof.
  destruct (@generation_mode_prints_sample Sample.world
              [mkResult (ch "d") "20" QUESTION] [] "42" QUESTION
              [Stdout ("[*] Depth set to: 20" +++ endl)]
              (mkLocals 0 UINT_MAX 42 true
                        (setDepth 20 (@new_Untwister Sample.world)) O))
    as (_ & _ & Hrun).
  - intros r [].
  - reflexivity.
  - unfold main. exact Hrun.
Defined.

Lemma one_line_per_result_witness :
  exists before,
    @FindSeed Sample.world (@new_Untwister Sample.world) 0 100
    = (before
       ++ [ Stdout ("[$] Found seed 1 with a confidence of 100%" +++ endl);
            Stdout ("[$] Found seed 7 with a confidence of 75%" +++ endl) ],
       true).
Proof.
  eexists.
  rewrite (@one_line_per_result Sample.world (@new_Untwister Sample.world) 0 100 _ eq_refl).
  rewrite !app_assoc. reflexivity.
Defined.

(** ** The progress thread *)

Section Progress.

Context {W : World}.

Lemma poll_body_count (totalWork : Z) (p : Poll) (st : progress) :
  count (snd (poll_body totalWork p st)) = wrap32 (count st + 1).
Proof.
  unfold poll_body.
  now destruct (if Double.ltb Double.zero (poll_time_span p) then _ else _).
Qed.

(** The estimate of the time left is written only when [count] is a
    multiple of 20. *)
Lemma poll_body_timeLeft (totalWork : Z) (p : Poll) (st : progress) :
  count st mod 20 <> 0 ->
  timeLeft (snd (poll_body totalWork p st)) = timeLeft st.
Proof.
  intros Hc. unfold poll_body.
  destruct (Double.ltb Double.zero (poll_time_span p)); [|reflexivity].
  destruct (0 =? count st mod 20) eqn:E; [|reflexivity].
  apply Z.eqb_eq in E. congruence.
Qed.

(** When [count] is a multiple of 20 and the clock has advanced, it is
    computed anew from the work left and the current rate. *)
Lemma poll_body_timeLeft_anew (totalWork : Z) (p : Poll) (st : progress) :
  count st mod 20 = 0 ->
  Double.ltb Double.zero (poll_time_span p) = true ->
  timeLeft (snd (poll_body totalWork p st))
  = Double.div
      (Double.div (Double.of_Z (wrap32 (totalWork - status_sum (poll_status p))))
                  (Double.div (Double.of_Z (status_sum (poll_status p))) (poll_time_span p)))
      (Double.of_Z 60).
Proof.
  intros Hc Ht. unfold poll_body. rewrite Ht, Hc. reflexivity.
Qed.

Lemma poll_body_trace (totalWork : Z) (p : Poll) (st : progress) :
  slept (fst (poll_body totalWork p st)) = 0
  /\ flushes (fst (poll_body totalWork p st)) = 1.
Proof.
  unfold poll_body.
  now destruct (if Double.ltb Double.zero (poll_time_span p) then _ else _).
Qed.

Lemma slept_app (a b : trace) : slept (a ++ b) = slept a + slept b.
Proof. induction a as [|e a IH]; cbn [app slept]; [reflexivity|]. rewrite IH. lia. Qed.

Lemma flushes_app (a b : trace) : flushes (a ++ b) = flushes a + flushes b.
Proof.
  induction a as [|e a IH]; [reflexivity|].
  destruct e; cbn [app flushes]; rewrite IH; lia.
Qed.

(** The polling loop is left exactly on an observation of the completed
    flag being set. *)
Lemma poll_loop_none_iff (totalWork : Z) (ps : list Poll) (st : progress) :
  poll_loop totalWork ps st = None
  <-> forallb (fun q => negb (poll_completed q)) ps = true.
Proof.
  revert st. induction ps as [|p ps IH]; intros st; simpl; [tauto|].
  destruct (poll_completed p); simpl.
  - split; discriminate.
  - destruct (poll_body totalWork p st) as [out st1].
    rewrite <- (IH st1).
    destruct (poll_loop totalWork ps st1) as [[out' st2]|]; split; congruence.
Qed.

Lemma after_polls_S (totalWork : Z) (ps : list Poll) (k : nat) (st : progress) (d : Poll) :
  (k < List.length ps)%nat ->
  after_polls totalWork ps (S k) st
  = snd (poll_body totalWork (nth k ps d) (after_polls totalWork ps k st)).
Proof.
  revert k st. induction ps as [|p ps IH]; intros k st Hk; simpl in Hk; [lia|].
  destruct k as [|k]; [now destruct ps|].
  change (after_polls totalWork (p :: ps) (S (S k)) st)
    with (after_polls totalWork ps (S k) (snd (poll_body totalWork p st))).
  rewrite IH by lia. reflexivity.
Qed.

Lemma after_polls_count (totalWork : Z) (ps : list Poll) (k : nat) (st : progress) :
  (k <= List.length ps)%nat ->
  0 <= count st -> count st + Z.of_nat k <= UINT_MAX ->
  count (after_polls totalWork ps k st) = count st + Z.of_nat k.
Proof.
  revert k st. induction ps as [|p ps IH]; intros k st Hk H0 Hmax.
  - destruct k; simpl in *; lia.
  - destruct k as [|k]; [simpl; lia|].
    change (after_polls totalWork (p :: ps) (S k) st)
      with (after_polls totalWork ps k (snd (poll_body totalWork p st))).
    assert (Hc : count (snd (poll_body totalWork p st)) = count st + 1).
    { rewrite poll_body_count. apply wrap32_small. lia. }
    rewrite IH; rewrite ?Hc; simpl in Hk; lia.
Qed.

Lemma poll_loop_first_completed
      (totalWork : Z) (pre : list Poll) (p : Poll) (post : list Poll) (st : progress) :
  forallb (fun q => negb (poll_completed q)) pre = true ->
  poll_completed p = true ->
  exists out,
    poll_loop totalWork (pre ++ p :: post) st
    = Some (out, after_polls totalWork pre (List.length pre) st)
    /\ flushes out = Z.of_nat (List.length pre)
    /\ slept out = 100 * Z.of_nat (List.length pre).
Proof.
  intros Hpre Hp. revert st. induction pre as [|q pre IH]; intros st.
  - exists []. simpl. rewrite Hp. auto.
  - simpl in Hpre. apply andb_true_iff in Hpre as [Hq Hpre].
    apply negb_true_iff in Hq.
    destruct (IH Hpre (snd (poll_body totalWork q st))) as (out & Hrun & Hf & Hs).
    pose proof (poll_body_trace totalWork q st) as [Hs0 Hf0].
    exists (fst (poll_body totalWork q st) ++ Sleep 100 :: out).
    change (poll_loop totalWork ((q :: pre) ++ p :: post) st)
      with (if poll_completed q then Some ([], st)
            else let '(out, st') := poll_body totalWork q st in
                 match poll_loop totalWork (pre ++ p :: post) st' with
                 | Some (out', st'') => Some (out ++ Sleep 100 :: out', st'')
                 | None => None
                 end).
    rewrite Hq. destruct (poll_body totalWork q st) as [o1 st1] eqn:Hb.
    cbn [fst snd] in *. rewrite Hrun.
    split; [cbn [after_polls List.length]; now rewrite Hb|].
    rewrite flushes_app, slept_app. cbn [flushes slept sleep_ms List.length].
    lia.
Qed.

Lemma wait_running_first_true (idle : nat) (rest : list bool) :
  wait_running (repeat false idle ++ true :: rest) = Some (repeat (Sleep 100) idle).
Proof. induction idle as [|n IH]; simpl; [reflexivity|]. now rewrite IH. Qed.

(** [DisplayProgress] returns exactly when some load of the running flag
    and, after it, some load of the completed flag return true. *)
Lemma DisplayProgress_none_iff (totalWork : Z) :
  DisplayProgress totalWork = None
  <-> wait_running running_loads = None
      \/ forallb (fun q => negb (poll_completed q)) polls = true.
Proof.
  unfold DisplayProgress. rewrite <- (poll_loop_none_iff totalWork polls progress0).
  destruct (wait_running running_loads) as [w|]; [|tauto].
  destruct (poll_loop totalWork polls progress0) as [[out st]|].
  - split; [discriminate|]. intros [H|H]; discriminate.
  - tauto.
Qed.

(** The loop adds the counters in unsigned arithmetic: the sum it holds
    is the integer sum reduced modulo 2^32. *)
Lemma status_sum_total (status : list Z) : status_sum status = wrap32 (total status).
Proof.
  unfold status_sum.
  assert (H : forall acc,
             fold_left (fun sum x => wrap32 (sum + x)) status (wrap32 acc)
             = wrap32 (acc + total status)).
  { induction status as [|x rest IH]; intros acc; cbn [fold_left total fold_right].
    - now rewrite Z.add_0_r.
    - assert (Hw : wrap32 (wrap32 acc + x) = wrap32 (acc + x))
        by (unfold wrap32; apply Zplus_mod_idemp_l).
      rewrite Hw, (IH (acc + x)). f_equal. unfold total. lia. }
  exact (H 0).
Qed.

(** One turn of the loop body, read field by field: what it prints and
    what it leaves in the locals. *)
Lemma poll_body_reading (totalWork : Z) (q : Poll) (st : progress) :
  let st' := snd (poll_body totalWork q st) in
  let moving := Double.ltb Double.zero (poll_time_span q) in
  fst (poll_body totalWork q st)
  = [Stdout (progress_line totalWork (count st) (poll_sum q) st'); Flush]
  /\ percent st'
     = Double.mul (Double.div (Double.of_Z (poll_sum q)) (Double.of_Z totalWork))
                  (Double.of_Z 100)
  /\ seedsPerSec st'
     = (if moving then Double.div (Double.of_Z (poll_sum q)) (poll_time_span q)
        else seedsPerSec st)
  /\ timeLeft st'
     = (if moving && (count st mod 20 =? 0)
        then Double.div
               (Double.div (Double.of_Z (wrap32 (totalWork - poll_sum q)))
                           (Double.div (Double.of_Z (poll_sum q)) (poll_time_span q)))
               (Double.of_Z 60)
        else timeLeft st).
Proof.
  unfold poll_body, poll_sum, progress_line. rewrite <- status_sum_total.
  rewrite (Z.eqb_sym (count st mod 20) 0).
  destruct (Double.ltb Double.zero (poll_time_span q));
    [destruct (0 =? count st mod 20)|]; cbn [fst snd andb]; repeat split.
Qed.

Lemma flat_map_seq_shift {A : Type} (f : nat -> list A) (n : nat) :
  flat_map f (seq 1 n) = flat_map (fun k => f (S k)) (seq 0 n).
Proof.
  rewrite <- seq_shift. induction (seq 0 n) as [|k ks IH]; cbn [map flat_map];
    [reflexivity|now rewrite IH].
Qed.

(** The whole output of the polling loop, turn by turn. *)
Lemma poll_loop_turns
      (totalWork : Z) (pre : list Poll) (p : Poll) (post : list Poll) (st : progress) :
  forallb (fun q => negb (poll_completed q)) pre = true ->
  poll_completed p = true ->
  poll_loop totalWork (pre ++ p :: post) st
  = Some (flat_map
            (fun k => fst (poll_body totalWork (nth k pre p) (after_polls totalWork pre k st))
                      ++ [Sleep 100])
            (seq 0 (List.length pre)),
          after_polls totalWork pre (List.length pre) st).
Proof.
  intros Hpre Hp. revert st. induction pre as [|q pre IH]; intros st.
  - cbn [app poll_loop]. now rewrite Hp.
  - cbn [forallb] in Hpre. apply andb_true_iff in Hpre as [Hq Hpre].
    apply negb_true_iff in Hq.
    change (poll_loop totalWork ((q :: pre) ++ p :: post) st)
      with (if poll_completed q then Some ([], st)
            else let '(out, st') := poll_body totalWork q st in
                 match poll_loop totalWork (pre ++ p :: post) st' with
                 | Some (out', st'') => Some (out ++ Sleep 100 :: out', st'')
                 | None => None
                 end).
    rewrite Hq.
    cbn [List.length seq flat_map nth]. rewrite flat_map_seq_shift.
    change (after_polls totalWork (q :: pre) 0 st) with st.
    destruct (poll_body totalWork q st) as [o1 st1] eqn:Hb.
    rewrite (IH Hpre st1). cbn [fst].
    rewrite <- app_assoc. cbn [app]. f_equal. f_equal.
    + f_equal. f_equal. apply flat_map_ext. intros k.
      cbn [nth after_polls]. now rewrite Hb.
    + cbn [after_polls]. now rewrite Hb.
Qed.

(** C9.  The progress thread sleeps 100 ms after every load of the running
    flag that returns false.  Then it polls: for each observation with the
    completed flag unset it prints one progress line, which shows the sum of
    the per-worker status counters of that observation, flushes, and sleeps
    100 ms.  On the k-th poll, counted from 0, the percentage is computed
    from that sum; the rate is computed from it when the clock has advanced;
    and the estimate of the time left is computed anew when moreover k is a
    multiple of 20, and is left as it was on every other poll.  The loop is
    left at the first observation with the completed flag set, and not on
    the observations before it. *)
Theorem progress_polls_until_completed
  (totalWork : Z) (idle : nat) (later : list bool)
  (pre : list Poll) (p : Poll) (post : list Poll) :
  running_loads = repeat false idle ++ true :: later ->
  polls = pre ++ p :: post ->
  forallb (fun q => negb (poll_completed q)) pre = true ->
  poll_completed p = true ->
  let state := fun k => after_polls totalWork pre k progress0 in
  let seen := fun k => nth k pre p in
  exists out,
    DisplayProgress totalWork = Some (repeat (Sleep 100) idle ++ out ++ [Stdout CLEAR])
    /\ out = flat_map
               (fun k => [ Stdout (progress_line totalWork (count (state k))
                                                 (poll_sum (seen k)) (state (S k)));
                           Flush;
                           Sleep 100 ])
               (seq 0 (List.length pre))
    /\ flushes out = Z.of_nat (List.length pre)
    /\ slept out = 100 * Z.of_nat (List.length pre)
    /\ (forall k, (k < List.length pre)%nat -> Z.of_nat k <= UINT_MAX ->
          let moving := Double.ltb Double.zero (poll_time_span (seen k)) in
          count (state k) = Z.of_nat k
          /\ percent (state (S k))
             = Double.mul (Double.div (Double.of_Z (poll_sum (seen k)))
                                      (Double.of_Z totalWork))
                          (Double.of_Z 100)
          /\ seedsPerSec (state (S k))
             = (if moving
                then Double.div (Double.of_Z (poll_sum (seen k)))
                                (poll_time_span (seen k))
                else seedsPerSec (state k))
          /\ timeLeft (state (S k))
             = (if moving && (Z.of_nat k mod 20 =? 0)
                then Double.div
                       (Double.div
                          (Double.of_Z (wrap32 (totalWork - poll_sum (seen k))))
                          (Double.div (Double.of_Z (poll_sum (seen k)))
                                      (poll_time_span (seen k))))
                       (Double.of_Z 60)
                else timeLeft (state k)))
    /\ poll_loop totalWork pre progress0 = None.
Proof.
  intros Hloads Hpolls Hpre Hp state seen.
  destruct (poll_loop_first_completed totalWork pre p post progress0 Hpre Hp)
    as (out & Hrun & Hf & Hs).
  pose proof (poll_loop_turns totalWork pre p post progress0 Hpre Hp) as Hturns.
  rewrite Hrun in Hturns. injection Hturns as Hout.
  exists out. split; [|split; [|split; [exact Hf|split; [exact Hs|split]]]].
  - unfold DisplayProgress.
    now rewrite Hloads, wait_running_first_true, Hpolls, Hrun.
  - rewrite Hout, !flat_map_concat_map. f_equal. apply map_ext_in.
    intros k Hin. apply in_seq in Hin. destruct Hin as [_ Hk]. cbn [Nat.add] in Hk.
    destruct (poll_body_reading totalWork (nth k pre p)
                (after_polls totalWork pre k progress0)) as (Hline & _).
    rewrite Hline. cbn [app]. unfold state, seen.
    now rewrite (after_polls_S totalWork pre k progress0 p Hk).
  - intros k Hk Hmax moving. unfold state, seen, moving.
    rewrite (after_polls_S totalWork pre k progress0 p Hk).
    destruct (poll_body_reading totalWork (nth k pre p)
                (after_polls totalWork pre k progress0)) as (_ & Hpc & Hrate & Heta).
    assert (Hcount : count (after_polls totalWork pre k progress0) = Z.of_nat k).
    { rewrite after_polls_count; cbn [count progress0]; lia. }
    rewrite Hcount in Heta. repeat split; assumption.
  - now apply poll_loop_none_iff.
Qed.

End Progress.

Lemma progress_polls_until_completed_witness :
  let state := fun k => @after_polls Sample.long_world 1000000
                                     (firstn 21 Sample.long_polls) k progress0 in
  exists out,
    @DisplayProgress Sample.long_world 1000000
    = Some ([Sleep 100] ++ out ++ [Stdout "<clear>"])
    /\ flushes out = 21
    /\ slept out = 2100
    /\ timeLeft (state 1%nat)
       = Double.div (Double.div (Double.of_Z (1000000 - 30))
                                (Double.div (Double.of_Z 30) (Double.of_Z 1)))
                    (Double.of_Z 60)
    /\ timeLeft (state 2%nat) = timeLeft (state 1%nat)
    /\ timeLeft (state 20%nat) = timeLeft (state 19%nat)
    /\ timeLeft (state 21%nat)
       = Double.div (Double.div (Double.of_Z (1000000 - 630))
                                (Double.div (Double.of_Z 630) (Double.of_Z 21)))
                    (Double.of_Z 60)
    /\ timeLeft (state 21%nat) <> timeLeft (state 20%nat).
Proof.
  intros state.
  destruct (@progress_polls_until_completed Sample.long_world 1000000 1 []
              (firstn 21 Sample.long_polls) (mkPoll true (Double.of_Z 22) [220; 440]) []
              eq_refl eq_refl eq_refl eq_refl) as (out & Hrun & _ & Hf & Hs & Hturn & _).
  assert (Hmax : forall k, (k < 21)%nat -> Z.of_nat k <= UINT_MAX)
    by (intros k Hk; unfold UINT_MAX; lia).
  assert (Hlen : forall k, (k < 21)%nat ->
                           (k < List.length (firstn 21 Sample.long_polls))%nat)
    by (intros k Hk; exact Hk).
  exists out. split; [exact Hrun|]. split; [exact Hf|]. split; [exact Hs|].
  split; [|split; [|split; [|split]]].
  - destruct (Hturn 0%nat (Hlen 0%nat ltac:(lia)) (Hmax 0%nat ltac:(lia))) as (_ & _ & _ & H).
    unfold state. rewrite H. vm_compute. reflexivity.
  - destruct (Hturn 1%nat (Hlen 1%nat ltac:(lia)) (Hmax 1%nat ltac:(lia))) as (_ & _ & _ & H).
    unfold state. rewrite H. reflexivity.
  - destruct (Hturn 19%nat (Hlen 19%nat ltac:(lia)) (Hmax 19%nat ltac:(lia))) as (_ & _ & _ & H).
    unfold state. rewrite H. reflexivity.
  - destruct (Hturn 20%nat (Hlen 20%nat ltac:(lia)) (Hmax 20%nat ltac:(lia))) as (_ & _ & _ & H).
    unfold state. rewrite H. vm_compute. reflexivity.
  - unfold state. vm_compute. discriminate.
Defined.

(** ** Exit codes *)

Section ExitCodes.

Context {W : World}.

(** getopt reporting an unknown option or a missing argument ends the run
    with a failure. *)
Lemma getopt_error_exit_failure (l : locals) (arg : string) (o : Z) :
  snd (handle_option l (mkResult QUESTION arg o)) = Return EXIT_FAILURE.
Proof. reflexivity. Qed.

Lemma unknown_prng_exit_failure (l : locals) (name : string) (o : Z) :
  isSupportedPRNG name = false ->
  handle_option l (mkResult (ch "r") name o)
  = ([Stderr (WARN +++ "ERROR: The PRNG " +++ dquote +++ name +++ dquote
              +++ " is not supported, see -h" +++ endl)],
     Return EXIT_FAILURE).
Proof.
  intros H. change (handle_option l (mkResult (ch "r") name o)) with (case_r l name).
  unfold case_r. now rewrite H.
Qed.

Lemma no_observations_exit_failure (l : locals) :
  generateFlag l = false ->
  observed_empty (untwister l) = true ->
  snd (after_options l) = Exit EXIT_FAILURE.
Proof. intros Hg Ho. unfold after_options. now rewrite Hg, Ho. Qed.

(** A search that finds nothing still exits with code 0, and prints nothing
    after the elapsed time. *)
Lemma no_candidates_exit_success (l : locals) (shown : trace) :
  generateFlag l = false ->
  observed_empty (untwister l) = false ->
  inferState (untwister l) = false ->
  DisplayProgress (wrap32 (upperBoundSeed l - lowerBoundSeed l)) = Some shown ->
  bruteforce (untwister l) (lowerBoundSeed l) (upperBoundSeed l) = [] ->
  snd (after_options l) = Exit EXIT_SUCCESS
  /\ exists before,
       fst (after_options l)
       = before ++ [Stdout (INFO +++ "Completed in " +++ dec elapsed_seconds
                            +++ " second(s)" +++ endl)].
Proof.
  intros Hg Ho Hi Hd Hb. unfold after_options. rewrite Hg, Ho, Hi.
  rewrite (FindSeed_shown (untwister l) _ _ shown Hd), Hb.
  cbn [fst snd map app]. split; [reflexivity|].
  eexists (_ :: _ :: _ :: _ :: shown). reflexivity.
Qed.

(** An unreadable file alone leaves the observation sequence empty, and the
    run fails for want of observations. *)
Lemma unreadable_only_input_exit_failure (path : string) :
  read_file path = None ->
  snd (main ["untwister"; "-i"; path]) = Exit EXIT_FAILURE.
Proof.
  intros H. unfold main, run_options.
  change (getopt_all ["untwister"; "-i"; path]) with [mkResult (ch "i") path QUESTION].
  rewrite process_options_cons, handle_option_i. unfold case_i. rewrite H.
  reflexivity.
Qed.

(** C1, the failing case.  The -i case reports a file that cannot be opened
    and goes on with the option loop; the locals are unchanged.  With a -g
    after it the run ends in generation mode with exit code 0. *)
Theorem unreadable_file_exit_success (path : string) :
  read_file path = None ->
  (forall l o,
      handle_option l (mkResult (ch "i") path o)
      = ([Stderr (WARN +++ "ERROR: File " +++ dquote +++ path +++ dquote
                  +++ " not found" +++ endl)],
         Next l))
  /\ main ["untwister"; "-i"; path; "-g"; "1"]
     = (Stderr (WARN +++ "ERROR: File " +++ dquote +++ path +++ dquote
                +++ " not found" +++ endl)
        :: CallGenerateSampleFromSeed 1
        :: map (fun v => Stdout (dec v +++ endl)) (generateSampleFromSeed new_Untwister 1),
        Exit 0).
Proof.
  intros H. split.
  - intros l o. rewrite handle_option_i. unfold case_i. now rewrite H.
  - unfold main, run_options.
    change (getopt_all ["untwister"; "-i"; path; "-g"; "1"])
      with [mkResult (ch "i") path QUESTION; mkResult (ch "g") "1" QUESTION].
    rewrite process_options_cons, handle_option_i. unfold case_i. rewrite H.
    reflexivity.
Qed.

End ExitCodes.

Lemma unreadable_file_exit_success_witness :
  @main Sample.world ["untwister"; "-i"; "missing.txt"; "-g"; "1"]
  = ([ Stderr ("[!] ERROR: File " +++ dquote +++ "missing.txt" +++ dquote
               +++ " not found" +++ endl);
       CallGenerateSampleFromSeed 1;
       Stdout ("1" +++ endl);
       Stdout ("2" +++ endl) ],
     Exit 0).
Proof.
  exact (proj2 (@unreadable_file_exit_success Sample.world "missing.txt" eq_refl)).
Defined.

(** ** Configuration values *)

Section Configuration.

Context {W : World}.

(** -d: a depth of 0 is rejected, any other depth is announced and
    installed. *)
Lemma depth_checked (l : locals) (arg : string) (o : Z) :
  handle_option l (mkResult (ch "d") arg o)
  = if strtoul32 arg 10 =? 0
    then ([Stderr (WARN +++ "ERROR: Please enter a valid depth > 1" +++ endl)],
          Return EXIT_FAILURE)
    else ([Stdout (INFO +++ "Depth set to: " +++ dec (strtoul32 arg 10) +++ endl)],
          Next (with_untwister l (setDepth (strtoul32 arg 10) (untwister l)))).
Proof. reflexivity. Qed.

(** -t: a worker count of 0 is rejected, any other count is installed. *)
Lemma threads_checked (l : locals) (arg : string) (o : Z) :
  handle_option l (mkResult (ch "t") arg o)
  = if strtoul32 arg 10 =? 0
    then ([Stderr (WARN +++ "ERROR: Please enter a valid number of threads > 1" +++ endl)],
          Return EXIT_FAILURE)
    else ([], Next (with_untwister l (setThreads (strtoul32 arg 10) (untwister l)))).
Proof. reflexivity. Qed.

Lemma compare_cont_swap (p q : positive) :
  Pos.compare_cont Eq q p = CompOpp (Pos.compare_cont Eq p q).
Proof. exact (Pos.compare_antisym p q). Qed.

Lemma hundred_bits : Double.of_Z 100 = S754_finite false 7036874417766400 (-46).
Proof. vm_compute. reflexivity. Qed.

(** On every double that is a number the guard of -c is the negation of
    0 < c <= 100. *)
Lemma confidence_guard (c : double) :
  c <> S754_nan ->
  Double.leb c Double.zero || Double.ltb (Double.of_Z 100) c
  = negb (Double.ltb Double.zero c && Double.leb c (Double.of_Z 100)).
Proof.
  intros Hnan. destruct c as [s|s| |s m e]; try (destruct s; reflexivity);
    [contradiction|].
  destruct s; [reflexivity|].
  rewrite hundred_bits.
  unfold Double.leb, Double.ltb, Double.zero, SFleb, SFltb, SFcompare.
  rewrite (Z.compare_antisym e (-46)).
  destruct (e ?= -46) eqn:E; cbn [CompOpp orb andb negb]; try reflexivity.
  rewrite (compare_cont_swap m 7036874417766400).
  now destruct (Pos.compare_cont Eq m 7036874417766400).
Qed.

(** -c on a number: rejected unless 0 < c <= 100, then announced and
    installed. *)
Lemma confidence_checked (l : locals) (arg : string) (o : Z) :
  atof arg <> S754_nan ->
  handle_option l (mkResult (ch "c") arg o)
  = if Double.ltb Double.zero (atof arg) && Double.leb (atof arg) (Double.of_Z 100)
    then ([Stdout (INFO +++ "Minimum confidence set to: " +++ show_double (atof arg)
                   +++ endl)],
          Next (with_untwister l (setMinConfidence (atof arg) (untwister l))))
    else ([Stderr (WARN +++ "ERROR: Invalid confidence percentage " +++ endl)],
          Return EXIT_FAILURE).
Proof.
  intros Hnan.
  change (handle_option l (mkResult (ch "c") arg o)) with (case_c l arg).
  unfold case_c. rewrite (confidence_guard _ Hnan).
  now destruct (Double.ltb Double.zero (atof arg)
                && Double.leb (atof arg) (Double.of_Z 100)).
Qed.

(** C4, the failing case.  A minimum confidence that atof reads as NaN is
    neither greater than 0 nor at most 100, and -c announces and installs
    it. *)
Theorem nan_confidence_installed (l : locals) (arg : string) (o : Z) :
  atof arg = S754_nan ->
  Double.ltb Double.zero (atof arg) = false
  /\ Double.leb (atof arg) (Double.of_Z 100) = false
  /\ handle_option l (mkResult (ch "c") arg o)
     = ([Stdout (INFO +++ "Minimum confidence set to: " +++ show_double S754_nan +++ endl)],
        Next (with_untwister l (setMinConfidence S754_nan (untwister l)))).
Proof.
  intros H.
  change (handle_option l (mkResult (ch "c") arg o)) with (case_c l arg).
  unfold case_c. rewrite H. repeat split.
Qed.

End Configuration.

Lemma nan_confidence_installed_witness :
  exists out l,
    @process_options Sample.world (getopt_all ["untwister"; "-c"; "nan"]) (@locals0 Sample.world)
    = (out, Next l)
    /\ m_minConfidence (untwister l) = S754_nan.
Proof.
  destruct (@nan_confidence_installed Sample.world (@locals0 Sample.world) "nan" QUESTION
              eq_refl) as (_ & _ & Hrun).
  eexists. eexists. split.
  - change (getopt_all ["untwister"; "-c"; "nan"]) with [mkResult (ch "c") "nan" QUESTION].
    rewrite process_options_cons, Hrun. reflexivity.
  - reflexivity.
Defined.


(** * Further properties of the driver *)

(** ** The option loop as a whole *)

(** Case analysis along the switch of [main] and the tests inside its
    cases. *)
Ltac along_switch :=
  unfold handle_option;
  repeat match goal with
         | |- context [if ?c =? ?k then _ else _] => destruct (c =? k) eqn:?
         end;
  unfold case_g, case_u, case_r, case_d, case_i, case_t, case_c, case_question;
  repeat match goal with
         | |- context [if ?b then _ else _] => destruct b eqn:?
         | |- context [match read_file ?p with _ => _ end] => destruct (read_file p) eqn:?
         end.

Section LoopAlgebra.

Context {W : World}.

(** X1.  The option loop over two lists of results run one after the
    other: when the first list ends the run, the second is never looked at;
    otherwise the second is run from the locals the first left, and the
    output is the two outputs in order. *)
Theorem process_options_compose (a b : list result) (l : locals) :
  process_options (a ++ b) l
  = match process_options a l with
    | (out, Return code) => (out, Return code)
    | (out, Next l') =>
        let '(out', f) := process_options b l' in (out ++ out', f)
    end.
Proof.
  revert l. induction a as [|r a IH]; intros l.
  - cbn [app process_options]. now destruct (process_options b l).
  - cbn [app]. rewrite !process_options_cons.
    destruct (handle_option l r) as [o1 [l1|code]]; [|reflexivity].
    rewrite IH. destruct (process_options a l1) as [o2 [l2|code]]; [|reflexivity].
    destruct (process_options b l2) as [o3 f]. now rewrite app_assoc.
Qed.

Lemma handle_option_code (l : locals) (r : result) (out : trace) (code : Z) :
  handle_option l r = (out, Return code) -> code = 0 \/ code = 1.
Proof.
  revert out code. along_switch; intros out code H; inversion H; subst;
    unfold EXIT_SUCCESS, EXIT_FAILURE; auto.
Qed.

Lemma process_options_code (rs : list result) (l : locals) (out : trace) (code : Z) :
  process_options rs l = (out, Return code) -> code = 0 \/ code = 1.
Proof.
  revert l out. induction rs as [|r rs IH]; intros l out H.
  - discriminate.
  - rewrite process_options_cons in H.
    destruct (handle_option l r) as [o1 [l1|c1]] eqn:Hh.
    + destruct (process_options rs l1) as [o2 f2] eqn:Hr. inversion H; subst.
      eapply IH; eassumption.
    + inversion H; subst. eapply handle_option_code; eassumption.
Qed.

(** X2.  A run ends with exit code 0 or 1, or it never ends, and that only
    in a search whose progress thread never leaves its loops. *)
Theorem exit_code_zero_or_one (argv : list string) :
  snd (main argv) = Exit 0
  \/ snd (main argv) = Exit 1
  \/ (snd (main argv) = Blocked /\ exists totalWork, DisplayProgress totalWork = None).
Proof.
  unfold main, run_options.
  destruct (process_options (getopt_all argv) locals0) as [out [l|code]] eqn:Hrun.
  - unfold after_options.
    destruct (generateFlag l).
    + destruct (observed_empty (untwister l)); cbn [snd]; auto.
    + destruct (observed_empty (untwister l)); cbn [snd]; auto.
      destruct (inferState (untwister l)); cbn [snd]; auto.
      unfold FindSeed.
      destruct (DisplayProgress (wrap32 (upperBoundSeed l - lowerBoundSeed l))) eqn:Hd;
        cbn [snd]; auto.
      right. right. split; [reflexivity|]. eexists. exact Hd.
  - cbn [snd]. destruct (process_options_code _ _ _ _ Hrun) as [-> | ->]; auto.
Qed.

End LoopAlgebra.

(** ** What getopt can return, and failures *)

Section Failures.

Context {W : World}.

Lemma takes_argument_handled (c : ascii) :
  takes_argument c = true -> handled (code c) = true.
Proof.
  unfold takes_argument, handled. cbv zeta.
  rewrite !orb_true_iff. tauto.
Qed.

Lemma is_flag_handled (c : ascii) : is_flag c = true -> handled (code c) = true.
Proof.
  unfold is_flag, handled. cbv zeta.
  rewrite !orb_true_iff. tauto.
Qed.

Lemma scan_cluster_handled (cs : list ascii) (next : option string) :
  Forall (fun r => handled (opt_c r) = true) (fst (scan_cluster cs next)).
Proof.
  induction cs as [|c rest IH]; cbn [scan_cluster fst]; [constructor|].
  destruct (takes_argument c) eqn:Ht.
  - pose proof (takes_argument_handled c Ht) as Hc.
    destruct rest; [destruct next|]; cbn [fst]; repeat constructor; assumption.
  - destruct (scan_cluster rest next) as [rs taken]. cbn [fst] in *.
    destruct (is_flag c) eqn:Hf; cbn [fst]; constructor; try assumption.
    + now apply is_flag_handled.
    + reflexivity.
Qed.

Lemma scan_args_handled (args : list string) (skip : bool) :
  Forall (fun r => handled (opt_c r) = true) (scan_args args skip).
Proof.
  revert skip. induction args as [|a rest IH]; intros skip; cbn [scan_args];
    [constructor|].
  destruct skip; [apply IH|].
  destruct (chars a) as [|d [|c cs]]; try apply IH.
  destruct (is_dash d); [|apply IH].
  destruct (is_dash c && match cs with [] => true | _ :: _ => false end); [constructor|].
  pose proof (scan_cluster_handled (c :: cs) (hd_error rest)) as Hc.
  destruct (scan_cluster (c :: cs) (hd_error rest)) as [rs taken]. cbn [fst] in Hc.
  apply Forall_app. split; [exact Hc|apply IH].
Qed.

(** The default case of the switch is dead: getopt returns nothing else
    than the eight option characters and the question mark. *)
Lemma getopt_all_handled (argv : list string) :
  Forall (fun r => handled (opt_c r) = true) (getopt_all argv).
Proof. apply scan_args_handled. Qed.

Lemma handle_option_failure_reported (l : locals) (r : result) (out : trace) :
  handled (opt_c r) = true ->
  handle_option l r = (out, Return 1) ->
  exists s, In (Stderr s) out.
Proof.
  intros Hh. revert out. along_switch; intros out H; inversion H; subst;
    try (eexists; left; reflexivity).
  unfold handled in Hh.
  repeat match goal with
         | E : (_ =? _) = false |- _ => rewrite E in Hh; clear E
         end.
  discriminate.
Qed.

Lemma process_options_failure_reported (rs : list result) (l : locals) (out : trace) :
  Forall (fun r => handled (opt_c r) = true) rs ->
  process_options rs l = (out, Return 1) ->
  exists s, In (Stderr s) out.
Proof.
  intros Hrs. revert l out. induction Hrs as [|r rs Hr Hrs IH]; intros l out H.
  - discriminate.
  - rewrite process_options_cons in H.
    destruct (handle_option l r) as [o1 [l1|c1]] eqn:Hh.
    + destruct (process_options rs l1) as [o2 f2] eqn:Hrest. inversion H; subst.
      destruct (IH _ _ Hrest) as [s Hs]. exists s. apply in_or_app. now right.
    + inversion H; subst. eapply handle_option_failure_reported; eassumption.
Qed.

Lemma after_options_failure_reported (l : locals) :
  snd (after_options l) = Exit 1 ->
  exists s, In (Stderr s) (fst (after_options l)).
Proof.
  unfold after_options.
  destruct (generateFlag l).
  - destruct (observed_empty (untwister l)); cbn [fst snd]; intros H; inversion H.
  - destruct (observed_empty (untwister l)); cbn [fst snd].
    + intros _. eexists. apply in_or_app. right. left. reflexivity.
    + destruct (inferState (untwister l)); cbn [fst snd]; [intros H; inversion H|].
      destruct (FindSeed _ _ _) as [o1 [|]]; cbn [fst snd]; intros H; inversion H.
Qed.

(** X3.  Whenever a run exits with code 1, it has written a message to
    stderr. *)
Theorem failure_reported_on_stderr (argv : list string) :
  snd (main argv) = Exit 1 ->
  exists s, In (Stderr s) (fst (main argv)).
Proof.
  unfold main, run_options.
  destruct (process_options (getopt_all argv) locals0) as [out [l|code]] eqn:Hrun.
  - pose proof (after_options_failure_reported l) as Ha.
    destruct (after_options l) as [out' o]. cbn [fst snd] in *.
    intros Ho. destruct (Ha Ho) as [s Hs]. exists s. apply in_or_app. now right.
  - cbn [fst snd]. intros Hc. inversion Hc; subst.
    eapply process_options_failure_reported; [apply getopt_all_handled|exact Hrun].
Qed.

End Failures.

Lemma failure_reported_on_stderr_witness :
  exists s, In (Stderr s) (fst (@main Sample.world ["untwister"; "-t"; "0"; "-i"; "observed.txt"])).
Proof.
  exact (@failure_reported_on_stderr Sample.world
           ["untwister"; "-t"; "0"; "-i"; "observed.txt"] eq_refl).
Defined.

(** ** What the option loop leaves in the controller *)

Section Controller.

Context {W : World}.

(** Two different option characters cannot both be the value of [c]. *)
Ltac clash :=
  repeat match goal with
         | E : (_ =? _) = true |- _ => apply Z.eqb_eq in E
         end;
  match goal with
  | E1 : ?c = ?a, E2 : ?c = ?b |- _ => rewrite E1 in E2; vm_compute in E2; discriminate
  end.

Lemma handle_option_observed (l : locals) (r : result) (out : trace) (l' : locals) :
  handle_option l r = (out, Next l') ->
  m_observedOutputs (untwister l')
  = m_observedOutputs (untwister l) ++ observations_of r.
Proof.
  revert out l'. unfold observations_of. along_switch; intros out l' H;
    try discriminate; try clash; inversion H; subst; cbn [untwister with_untwister];
    rewrite ?app_nil_r; try reflexivity.
  apply add_lines_observed.
Qed.

(** X4.  When the option loop runs to its end, the observation sequence is
    what it was before, followed by the values of the lines of every file
    given to -i that could be opened, in the order of the options. *)
Theorem observations_accumulate (rs : list result) (l : locals) (out : trace) (l' : locals) :
  process_options rs l = (out, Next l') ->
  m_observedOutputs (untwister l')
  = m_observedOutputs (untwister l) ++ flat_map observations_of rs.
Proof.
  revert l out. induction rs as [|r rs IH]; intros l out H.
  - inversion H; subst. cbn [flat_map]. now rewrite app_nil_r.
  - rewrite process_options_cons in H.
    destruct (handle_option l r) as [o1 [l1|c1]] eqn:Hh; [|discriminate].
    destruct (process_options rs l1) as [o2 f2] eqn:Hrest. inversion H; subst.
    rewrite (IH _ _ Hrest), (handle_option_observed _ _ _ _ Hh).
    cbn [flat_map]. now rewrite app_assoc.
Qed.

Lemma new_Untwister_well_configured : well_configured new_Untwister.
Proof.
  unfold well_configured, new_Untwister, UINT_MAX. cbn [m_depth m_threads m_minConfidence m_prng].
  split; [lia|]. split; [now left|]. split; [reflexivity|]. split; [reflexivity|now left].
Qed.

(** Reading a file touches nothing but the observation sequence. *)
Lemma add_lines_record (lines : list string) (u : Untwister) :
  add_lines lines u
  = mkUntwister (m_prng u) (m_depth u) (m_threads u) (m_minConfidence u)
                (m_observedOutputs u ++ map (fun line => strtoul32 line 0) lines).
Proof.
  unfold add_lines. revert u. induction lines as [|line lines IH]; intros u.
  - cbn [fold_left map]. rewrite app_nil_r. now destruct u.
  - cbn [fold_left map]. rewrite IH. unfold addObservedOutput.
    cbn [m_prng m_depth m_threads m_minConfidence m_observedOutputs].
    now rewrite <- app_assoc.
Qed.

Lemma handle_option_well_configured (l : locals) (r : result) (out : trace) (l' : locals) :
  well_configured (untwister l) ->
  handle_option l r = (out, Next l') ->
  well_configured (untwister l').
Proof.
  intros (Hd & Ht & Hc1 & Hc2 & Hp). revert out l'.
  along_switch; intros out l' H; try discriminate; inversion H; subst;
    rewrite ?add_lines_record;
    unfold well_configured;
    cbn [untwister with_untwister setPRNG setDepth setThreads setMinConfidence
         m_depth m_threads m_minConfidence m_prng];
    repeat match goal with
           | E : (_ || _) = false |- _ => apply orb_false_iff in E; destruct E
           | E : negb _ = false |- _ => apply negb_false_iff in E
           | E : (strtoul32 ?a 10 =? 0) = false |- _ =>
               apply Z.eqb_neq in E; pose proof (strtoul32_range a 10)
           end;
    repeat split; auto; try lia.
Qed.

(** X5.  When the option loop runs to its end, the controller holds a
    depth between 1 and 4294967295, a worker count that is the platform's
    or lies in the same range, a minimum confidence on which both tests of
    the guard of -c are false, and an algorithm name that is the first
    registered one or a supported one. *)
Theorem configuration_stays_valid (rs : list result) (out : trace) (l : locals) :
  process_options rs locals0 = (out, Next l) ->
  well_configured (untwister l).
Proof.
  intros Hrun.
  apply (process_options_invariant (fun x => well_configured (untwister x)) (fun _ => True))
    with (rs := rs) (l := locals0) (out := out); auto.
  - intros l0 r o l1 _ Hw Hh. eapply handle_option_well_configured; eassumption.
  - apply new_Untwister_well_configured.
Qed.

Lemma handle_option_keeps_depth (l : locals) (r : result) (out : trace) (l' : locals) :
  opt_c r <> ch "d" ->
  handle_option l r = (out, Next l') ->
  m_depth (untwister l') = m_depth (untwister l).
Proof.
  intros Hd. revert out l'. along_switch; intros out l' H; try discriminate;
    try (match goal with
         | E : (opt_c r =? ch "d") = true |- _ => apply Z.eqb_eq in E; contradiction
         end);
    inversion H; subst; rewrite ?add_lines_record; reflexivity.
Qed.

Lemma handle_option_keeps_threads (l : locals) (r : result) (out : trace) (l' : locals) :
  opt_c r <> ch "t" ->
  handle_option l r = (out, Next l') ->
  m_threads (untwister l') = m_threads (untwister l).
Proof.
  intros Hd. revert out l'. along_switch; intros out l' H; try discriminate;
    try (match goal with
         | E : (opt_c r =? ch "t") = true |- _ => apply Z.eqb_eq in E; contradiction
         end);
    inversion H; subst; rewrite ?add_lines_record; reflexivity.
Qed.

Lemma process_options_keeps_depth (rs : list result) (l : locals) (out : trace) (l' : locals) :
  (forall r, In r rs -> opt_c r <> ch "d") ->
  process_options rs l = (out, Next l') ->
  m_depth (untwister l') = m_depth (untwister l).
Proof.
  intros Hd Hrun.
  apply (process_options_invariant
           (fun x => m_depth (untwister x) = m_depth (untwister l))
           (fun r => opt_c r <> ch "d")) with (rs := rs) (l := l) (out := out);
    try assumption; [|reflexivity].
  intros l0 r o l1 Hr Hk Hh. cbv beta in *.
  now rewrite (handle_option_keeps_depth l0 r o l1 Hr Hh).
Qed.

Lemma process_options_keeps_threads (rs : list result) (l : locals) (out : trace) (l' : locals) :
  (forall r, In r rs -> opt_c r <> ch "t") ->
  process_options rs l = (out, Next l') ->
  m_threads (untwister l') = m_threads (untwister l).
Proof.
  intros Hd Hrun.
  apply (process_options_invariant
           (fun x => m_threads (untwister x) = m_threads (untwister l))
           (fun r => opt_c r <> ch "t")) with (rs := rs) (l := l) (out := out);
    try assumption; [|reflexivity].
  intros l0 r o l1 Hr Hk Hh. cbv beta in *.
  now rewrite (handle_option_keeps_threads l0 r o l1 Hr Hh).
Qed.

(** X6.  Of several -d the last one counts, and likewise for -t: when the
    option loop runs to its end, the depth is the value of the argument of
    the last -d, the worker count the value of the argument of the last -t,
    and neither is 0. *)
Theorem last_depth_and_threads_win :
  (forall before after arg o out l,
      (forall r, In r after -> opt_c r <> ch "d") ->
      process_options (before ++ mkResult (ch "d") arg o :: after) locals0 = (out, Next l) ->
      m_depth (untwister l) = strtoul32 arg 10 /\ strtoul32 arg 10 <> 0)
  /\ (forall before after arg o out l,
        (forall r, In r after -> opt_c r <> ch "t") ->
        process_options (before ++ mkResult (ch "t") arg o :: after) locals0 = (out, Next l) ->
        m_threads (untwister l) = strtoul32 arg 10 /\ strtoul32 arg 10 <> 0).
Proof.
  split; intros before after arg o out l Hafter Hrun;
    destruct (process_options_app _ _ _ _ _ Hrun) as (out1 & l1 & out2 & _ & Hb & _);
    rewrite process_options_cons in Hb.
  - rewrite depth_checked in Hb.
    destruct (strtoul32 arg 10 =? 0) eqn:Hz; [discriminate|].
    apply Z.eqb_neq in Hz. split; [|exact Hz].
    destruct (process_options after _) as [o2 f2] eqn:Hrest. inversion Hb; subst.
    now rewrite (process_options_keeps_depth _ _ _ _ Hafter Hrest).
  - rewrite threads_checked in Hb.
    destruct (strtoul32 arg 10 =? 0) eqn:Hz; [discriminate|].
    apply Z.eqb_neq in Hz. split; [|exact Hz].
    destruct (process_options after _) as [o2 f2] eqn:Hrest. inversion Hb; subst.
    now rewrite (process_options_keeps_threads _ _ _ _ Hafter Hrest).
Qed.

End Controller.

Lemma observations_accumulate_witness :
  exists out l,
    @process_options Sample.world
      (getopt_all ["untwister"; "-i"; "observed.txt"; "-i"; "missing.txt";
                   "-i"; "observed.txt"])
      (@locals0 Sample.world) = (out, Next l)
    /\ m_observedOutputs (untwister l)
       = [1804289383; 846930886; 8; 0; 1804289383; 846930886; 8; 0].
Proof.
  eexists. eexists. split; [vm_compute; reflexivity|].
  match goal with
  | |- m_observedOutputs (untwister ?l) = _ =>
      rewrite (@observations_accumulate Sample.world
                 (getopt_all ["untwister"; "-i"; "observed.txt"; "-i"; "missing.txt";
                              "-i"; "observed.txt"])
                 (@locals0 Sample.world) _ l eq_refl)
  end.
  reflexivity.
Defined.

Lemma configuration_stays_valid_witness :
  exists out l,
    @process_options Sample.world
      (getopt_all ["untwister"; "-d"; "20"; "-c"; "50"; "-r"; "mt19937"; "-t"; "-1"])
      (@locals0 Sample.world) = (out, Next l)
    /\ @well_configured Sample.world (untwister l).
Proof.
  eexists. eexists. split; [vm_compute; reflexivity|].
  eapply (@configuration_stays_valid Sample.world
            (getopt_all ["untwister"; "-d"; "20"; "-c"; "50"; "-r"; "mt19937"; "-t"; "-1"])).
  vm_compute. reflexivity.
Defined.

Lemma last_depth_and_threads_win_witness :
  exists out l,
    @process_options Sample.world
      (getopt_all ["untwister"; "-d"; "5"; "-t"; "3"; "-d"; "7"; "-u"])
      (@locals0 Sample.world) = (out, Next l)
    /\ m_depth (untwister l) = strtoul32 "7" 10
    /\ strtoul32 "7" 10 <> 0.
Proof.
  pose proof (proj1 (@last_depth_and_threads_win Sample.world)
                [mkResult (ch "d") "5" QUESTION; mkResult (ch "t") "3" QUESTION]
                [mkResult (ch "u") EmptyString QUESTION] "7" QUESTION) as H.
  eexists. eexists. split; [vm_compute; reflexivity|].
  eapply H.
  - intros r [<-|[]]. vm_compute. discriminate.
  - reflexivity.
Defined.

(** ** When the search is called *)

Section SearchCall.

Context {W : World}.

Lemma quiet_filter (t : trace) : quiet t = true -> filter is_bruteforce t = [].
Proof.
  induction t as [|e t IH]; [reflexivity|].
  cbn [quiet forallb filter]. intros H. apply andb_true_iff in H as [He Ht].
  apply negb_true_iff in He. rewrite He. now apply IH.
Qed.

Lemma FindSeed_one_call (u : Untwister) (lo hi : Z) :
  filter is_bruteforce (fst (FindSeed u lo hi)) = [CallBruteforce lo hi].
Proof.
  unfold FindSeed.
  destruct (DisplayProgress (wrap32 (hi - lo))) as [shown|] eqn:Hd; cbn [fst];
    [|reflexivity].
  rewrite filter_app. cbn [filter is_bruteforce app]. f_equal.
  apply quiet_filter. rewrite quiet_app, (DisplayProgress_quiet _ _ Hd).
  cbn [quiet forallb is_bruteforce negb andb]. apply found_lines_quiet.
Qed.

(** X7.  The brute-force search is called only when the option loop ran to
    its end outside generation mode, with observations loaded and after state
    inference failed; it is then called once in the whole run, on the bounds
    the option loop left. *)
Theorem bruteforce_only_after_failed_inference (rs : list result) (lo hi : Z) :
  In (CallBruteforce lo hi) (fst (run_options rs)) ->
  exists out0 l,
    process_options rs locals0 = (out0, Next l)
    /\ generateFlag l = false
    /\ observed_empty (untwister l) = false
    /\ inferState (untwister l) = false
    /\ lo = lowerBoundSeed l /\ hi = upperBoundSeed l
    /\ filter is_bruteforce (fst (run_options rs)) = [CallBruteforce lo hi].
Proof.
  unfold run_options.
  pose proof (process_options_quiet rs locals0) as Hq.
  destruct (process_options rs locals0) as [out0 [l|code]] eqn:Hrun; cbn [fst] in Hq.
  - unfold after_options.
    destruct (generateFlag l) eqn:Hg.
    + destruct (observed_empty (untwister l)); cbn [fst]; intros Hin; exfalso;
        revert Hin; apply quiet_not_in; rewrite quiet_app, Hq;
        cbn [quiet forallb is_bruteforce negb andb]; apply print_sample_quiet.
    + destruct (observed_empty (untwister l)) eqn:Ho.
      * cbn [fst]. intros Hin. exfalso. revert Hin. apply quiet_not_in.
        rewrite !quiet_app, Hq, Usage_quiet. reflexivity.
      * destruct (inferState (untwister l)) eqn:Hi.
        -- cbn [fst]. intros Hin. exfalso. revert Hin. apply quiet_not_in.
           rewrite quiet_app, Hq. reflexivity.
        -- pose proof (FindSeed_one_call (untwister l) (lowerBoundSeed l) (upperBoundSeed l))
             as Hone.
           pose proof (FindSeed_bruteforce (untwister l) (lowerBoundSeed l)
                         (upperBoundSeed l) lo hi) as Hb.
           destruct (FindSeed (untwister l) (lowerBoundSeed l) (upperBoundSeed l))
             as [found returned].
           cbn [fst] in *. intros Hin.
           apply in_app_or in Hin as [Hin|Hin];
             [exfalso; revert Hin; now apply quiet_not_in|].
           destruct Hin as [Hin|Hin]; [discriminate|].
           destruct (Hb Hin) as [-> ->].
           exists out0, l. repeat split; try assumption.
           rewrite filter_app, (quiet_filter _ Hq). cbn [app filter is_bruteforce].
           exact Hone.
  - cbn [fst]. intros Hin. exfalso. revert Hin. now apply quiet_not_in.
Qed.

(** X8.  After -u the span of the seed range, the total work handed to the
    progress thread, is two years plus the time between the two readings of
    the clock, reduced modulo 2^32; it is 63072000 when both readings give
    the same second, whatever that second is. *)
Theorem u_option_span (l : locals) (arg : string) (o : Z) :
  exists l',
    handle_option l (mkResult (ch "u") arg o) = ([], Next l')
    /\ wrap32 (upperBoundSeed l' - lowerBoundSeed l')
       = wrap32 (time_at (S (clock l)) - time_at (clock l) + 63072000)
    /\ (time_at (S (clock l)) = time_at (clock l) ->
        wrap32 (upperBoundSeed l' - lowerBoundSeed l') = 63072000).
Proof.
  eexists. split; [reflexivity|].
  cbn [upperBoundSeed lowerBoundSeed]. unfold wrap32, ONE_YEAR.
  assert (Hspan : ((time_at (S (clock l)) + 31536000) mod 4294967296
                   - (time_at (clock l) - 31536000) mod 4294967296) mod 4294967296
                  = (time_at (S (clock l)) - time_at (clock l) + 63072000) mod 4294967296).
  { rewrite <- Zminus_mod. f_equal. lia. }
  split; [exact Hspan|].
  intros Heq. rewrite Hspan, Heq.
  replace (time_at (clock l) - time_at (clock l) + 63072000) with 63072000 by lia.
  reflexivity.
Qed.

End SearchCall.

Lemma bruteforce_only_after_failed_inference_witness :
  filter is_bruteforce
         (fst (@run_options Sample.world (getopt_all ["untwister"; "-i"; "observed.txt"; "-u"])))
  = [CallBruteforce 1761964000 1825036000].
Proof.
  destruct (@bruteforce_only_after_failed_inference Sample.world
              (getopt_all ["untwister"; "-i"; "observed.txt"; "-u"])
              1761964000 1825036000) as (_ & _ & _ & _ & _ & _ & _ & _ & Hone).
  - vm_compute. do 3 right. now left.
  - exact Hone.
Defined.

Lemma u_option_span_witness :
  exists l',
    @handle_option Sample.world (@locals0 Sample.world) (mkResult (ch "u") EmptyString QUESTION)
    = ([], Next l')
    /\ wrap32 (upperBoundSeed l' - lowerBoundSeed l') = 63072000.
Proof.
  destruct (@u_option_span Sample.world (@locals0 Sample.world) EmptyString QUESTION)
    as (l' & Hrun & _ & Hsame).
  exists l'. split; [exact Hrun|]. apply Hsame. reflexivity.
Defined.

(** ** Numbers on the command line *)

Section Arguments.

Context {W : World}.

(** The overflow test of the digit loop is exact. *)
Lemma acc_step_exact (base i d : Z) (a : bool) :
  2 <= base -> 0 <= i <= ULONG_MAX -> 0 <= d < base ->
  acc_step base (mkAcc a (Some i)) d
  = mkAcc true (if i * base + d <=? ULONG_MAX then Some (i * base + d) else None).
Proof.
  intros Hb Hi Hd. unfold acc_step. cbn [val].
  pose proof (Z.div_mod ULONG_MAX base ltac:(lia)) as Hdm.
  pose proof (Z.mod_pos_bound ULONG_MAX base ltac:(lia)) as Hm.
  set (q := ULONG_MAX / base) in *. set (m := ULONG_MAX mod base) in *.
  clearbody q m.
  destruct (q <? i) eqn:E1; cbn [orb].
  - apply Z.ltb_lt in E1.
    replace (i * base + d <=? ULONG_MAX) with false; [reflexivity|].
    symmetry. apply Z.leb_gt.
    assert (base * (q + 1) <= base * i) by (apply Z.mul_le_mono_nonneg_l; lia). lia.
  - apply Z.ltb_ge in E1. destruct (i =? q) eqn:E2; cbn [andb].
    + apply Z.eqb_eq in E2. subst i. destruct (m <? d) eqn:E3.
      * apply Z.ltb_lt in E3.
        replace (q * base + d <=? ULONG_MAX) with false; [reflexivity|].
        symmetry. apply Z.leb_gt. lia.
      * apply Z.ltb_ge in E3.
        replace (q * base + d <=? ULONG_MAX) with true; [reflexivity|].
        symmetry. apply Z.leb_le. lia.
    + apply Z.eqb_neq in E2.
      replace (i * base + d <=? ULONG_MAX) with true; [reflexivity|].
      symmetry. apply Z.leb_le.
      assert (base * (i + 1) <= base * q) by (apply Z.mul_le_mono_nonneg_l; lia). lia.
Qed.

Lemma digits_loop_overflown (base : Z) (cs : list ascii) (a : bool) :
  forallb (is_digit_of base) cs = true ->
  digits_loop base cs (mkAcc a None)
  = mkAcc (a || match cs with [] => false | _ :: _ => true end) None.
Proof.
  revert a. induction cs as [|c rest IH]; intros a Hall; cbn [digits_loop].
  - now rewrite orb_false_r.
  - cbn [forallb] in Hall. apply andb_true_iff in Hall as [Hc Hrest].
    unfold is_digit_of in Hc. destruct (digit_val c) as [d|]; [|discriminate].
    rewrite Hc. unfold acc_step. cbn [val]. rewrite (IH true Hrest).
    now rewrite orb_true_r.
Qed.

(** The digit loop on a string of digits: the value, or the overflow mark
    when the value does not fit an unsigned long. *)
Lemma digits_loop_saturates (base : Z) (cs : list ascii) :
  2 <= base <= 36 ->
  forallb (is_digit_of base) cs = true ->
  forall (a : bool) (i : Z),
    0 <= i <= ULONG_MAX ->
    digits_loop base cs (mkAcc a (Some i))
    = mkAcc (a || match cs with [] => false | _ :: _ => true end)
            (if numeral_value base cs i <=? ULONG_MAX
             then Some (numeral_value base cs i) else None).
Proof.
  intros Hb. induction cs as [|c rest IH]; intros Hall a i Hi;
    cbn [digits_loop numeral_value].
  - rewrite orb_false_r.
    replace (i <=? ULONG_MAX) with true by (symmetry; apply Z.leb_le; lia).
    reflexivity.
  - cbn [forallb] in Hall. apply andb_true_iff in Hall as [Hc Hrest].
    unfold is_digit_of in Hc. unfold digit_of.
    destruct (digit_val c) as [d|] eqn:Ed; [|discriminate].
    rewrite Hc. apply Z.ltb_lt in Hc.
    pose proof (digit_val_range _ _ Ed) as Hd.
    rewrite acc_step_exact by lia. rewrite orb_true_r.
    assert (Hnn : 0 <= i * base + d)
      by (apply Z.add_nonneg_nonneg; [apply Z.mul_nonneg_nonneg|]; lia).
    destruct (i * base + d <=? ULONG_MAX) eqn:E.
    + apply Z.leb_le in E. rewrite (IH Hrest true (i * base + d)) by lia.
      reflexivity.
    + apply Z.leb_gt in E. rewrite (digits_loop_overflown base rest true Hrest).
      pose proof (numeral_value_mono base rest ltac:(lia) (i * base + d) Hnn).
      replace (numeral_value base rest (i * base + d) <=? ULONG_MAX) with false
        by (symmetry; apply Z.leb_gt; lia).
      reflexivity.
Qed.

Lemma take_prefix_10 (cs : list ascii) : take_prefix 10 cs = (10, cs).
Proof.
  unfold take_prefix. destruct cs as [|c0 [|c1 rest]]; [reflexivity| |];
    destruct (code c0 =? 48); reflexivity.
Qed.

Lemma digit_not_space (base : Z) (c : ascii) :
  base <= 10 -> is_digit_of base c = true -> isspace c = false.
Proof.
  intros Hb Hc. apply decimal_digit_code in Hc; [|exact Hb].
  unfold isspace. apply orb_false_iff. split.
  - apply Z.eqb_neq. lia.
  - apply andb_false_iff. right. apply Z.leb_gt. lia.
Qed.

(** strtoul in base 10 on a string of decimal digits. *)
Lemma strtoul_decimal (ds : list ascii) :
  ds <> [] ->
  forallb (is_digit_of 10) ds = true ->
  strtoul (string_of_list_ascii ds) 10 = Z.min (numeral_value 10 ds 0) ULONG_MAX.
Proof.
  intros Hne Hall. unfold strtoul, chars.
  rewrite list_ascii_of_string_of_list_ascii.
  destruct ds as [|c rest]; [contradiction|].
  pose proof Hall as Hc. cbn [forallb] in Hc. apply andb_true_iff in Hc as [Hc _].
  cbn [skip_space]. rewrite (digit_not_space 10 c ltac:(lia) Hc).
  rewrite (take_sign_digit c rest (decimal_digit_code 10 c ltac:(lia) Hc)).
  rewrite take_prefix_10.
  rewrite (digits_loop_saturates 10 (c :: rest) ltac:(lia) Hall false 0)
    by (unfold ULONG_MAX; lia).
  cbn [any val orb].
  destruct (numeral_value 10 (c :: rest) 0 <=? ULONG_MAX) eqn:E.
  - apply Z.leb_le in E. now rewrite Z.min_l.
  - apply Z.leb_gt in E. rewrite Z.min_r by lia. reflexivity.
Qed.

(** X9.  A depth written in decimal digits is saturated at 2^64 - 1 and
    then reduced modulo 2^32: -d rejects it when the result is 0 (as for
    4294967296) and installs the result otherwise (1 for 4294967297). *)
Theorem decimal_depth_reduced (l : locals) (ds : list ascii) (o : Z) :
  ds <> [] ->
  forallb (is_digit_of 10) ds = true ->
  let depth := wrap32 (Z.min (numeral_value 10 ds 0) ULONG_MAX) in
  handle_option l (mkResult (ch "d") (string_of_list_ascii ds) o)
  = if depth =? 0
    then ([Stderr (WARN +++ "ERROR: Please enter a valid depth > 1" +++ endl)],
          Return EXIT_FAILURE)
    else ([Stdout (INFO +++ "Depth set to: " +++ dec depth +++ endl)],
          Next (with_untwister l (setDepth depth (untwister l)))).
Proof.
  intros Hne Hall depth. rewrite depth_checked. unfold strtoul32.
  rewrite (strtoul_decimal ds Hne Hall). reflexivity.
Qed.

(** strtoul in base 10 on a minus sign and decimal digits that denote a 32-bit
    value. *)
Lemma strtoul_negative (ds : list ascii) (v : Z) :
  numeral 10 ds = Some v ->
  strtoul (String "-" (string_of_list_ascii ds)) 10 = wrap64 (- v).
Proof.
  intros Hnum. apply numeral_some in Hnum as (Hne & Hall & Hv & Hrange); [|lia].
  unfold strtoul, chars. cbn [list_ascii_of_string].
  rewrite list_ascii_of_string_of_list_ascii.
  change (skip_space ("-"%char :: ds)) with ("-"%char :: ds).
  change (take_sign ("-"%char :: ds)) with (true, ds).
  cbv beta iota zeta. rewrite take_prefix_10.
  rewrite (digits_loop_saturates 10 ds ltac:(lia) Hall false 0)
    by (unfold ULONG_MAX; lia).
  rewrite <- Hv.
  replace (v <=? ULONG_MAX) with true
    by (symmetry; apply Z.leb_le; unfold UINT_MAX, ULONG_MAX in *; lia).
  destruct ds; [contradiction|]. reflexivity.
Qed.

(** X10.  A negative worker count is not rejected: -t with a minus sign and
    a decimal number n between 1 and 4294967295 installs 4294967296 - n
    workers. *)
Theorem negative_threads_accepted (l : locals) (ds : list ascii) (v o : Z) :
  numeral 10 ds = Some v ->
  1 <= v ->
  handle_option l (mkResult (ch "t") (String "-" (string_of_list_ascii ds)) o)
  = ([], Next (with_untwister l (setThreads (4294967296 - v) (untwister l)))).
Proof.
  intros Hnum Hpos. rewrite threads_checked. unfold strtoul32.
  rewrite (strtoul_negative ds v Hnum).
  apply numeral_some in Hnum as (_ & _ & _ & Hrange); [|lia].
  assert (Hw : wrap32 (wrap64 (- v)) = 4294967296 - v).
  { unfold wrap32, wrap64, UINT_MAX in *.
    replace (- v) with ((18446744073709551616 - v) + (-1) * 18446744073709551616) by lia.
    rewrite Z.mod_add by lia. rewrite (Z.mod_small (18446744073709551616 - v)) by lia.
    replace (18446744073709551616 - v)
      with ((4294967296 - v) + 4294967295 * 4294967296) by lia.
    rewrite Z.mod_add by lia. apply Z.mod_small. lia. }
  rewrite Hw.
  replace (4294967296 - v =? 0) with false
    by (symmetry; apply Z.eqb_neq; unfold UINT_MAX in *; lia).
  reflexivity.
Qed.

(** An argument on which strtoul converts nothing is read as 0 in base 10
    too. *)
Lemma strtoul32_unparseable_10 (arg : string) :
  unparseable arg = true -> strtoul32 arg 10 = 0.
Proof.
  unfold unparseable, strtoul32, strtoul.
  destruct (take_sign (skip_space (chars arg))) as [negative cs]. cbn [snd].
  rewrite take_prefix_10.
  destruct cs as [|c rest]; [reflexivity|].
  intros Hc. apply negb_true_iff in Hc. cbn [digits_loop].
  unfold is_digit_of in Hc.
  destruct (digit_val c) as [d|]; [rewrite Hc|]; reflexivity.
Qed.

(** X11.  An argument that does not start with a number (after whitespace
    and an optional sign) is read as 0: -d and -t reject it with their error
    message and exit code 1, while -g takes 0 as the seed and turns the
    generation mode on without a message. *)
Theorem non_numeric_argument (l : locals) (arg : string) (o : Z) :
  unparseable arg = true ->
  handle_option l (mkResult (ch "d") arg o)
  = ([Stderr (WARN +++ "ERROR: Please enter a valid depth > 1" +++ endl)],
     Return EXIT_FAILURE)
  /\ handle_option l (mkResult (ch "t") arg o)
     = ([Stderr (WARN +++ "ERROR: Please enter a valid number of threads > 1" +++ endl)],
        Return EXIT_FAILURE)
  /\ handle_option l (mkResult (ch "g") arg o)
     = ([], Next (mkLocals (lowerBoundSeed l) (upperBoundSeed l) 0 true
                           (untwister l) (clock l))).
Proof.
  intros Hbad. pose proof (strtoul32_unparseable_10 arg Hbad) as Hz.
  rewrite depth_checked, threads_checked, handle_option_g, Hz. repeat split.
Qed.

End Arguments.

Lemma decimal_depth_reduced_witness :
  @handle_option Sample.world (@locals0 Sample.world)
                 (mkResult (ch "d") "4294967297" QUESTION)
  = ([Stdout ("[*] Depth set to: 1" +++ endl)],
     Next (with_untwister (@locals0 Sample.world)
                          (setDepth 1 (@new_Untwister Sample.world)))).
Proof.
  exact (@decimal_depth_reduced Sample.world (@locals0 Sample.world)
           (chars "4294967297") QUESTION ltac:(discriminate) eq_refl).
Defined.

Lemma negative_threads_accepted_witness :
  @handle_option Sample.world (@locals0 Sample.world) (mkResult (ch "t") "-2" QUESTION)
  = ([], Next (with_untwister (@locals0 Sample.world)
                              (setThreads 4294967294 (@new_Untwister Sample.world)))).
Proof.
  exact (@negative_threads_accepted Sample.world (@locals0 Sample.world)
           (chars "2") 2 QUESTION eq_refl ltac:(lia)).
Defined.

Lemma non_numeric_argument_witness :
  snd (@handle_option Sample.world (@locals0 Sample.world)
                      (mkResult (ch "d") "  +many" QUESTION))
  = Return 1.
Proof.
  destruct (@non_numeric_argument Sample.world (@locals0 Sample.world) "  +many" QUESTION
              eq_refl) as (Hd & _ & _).
  rewrite Hd. reflexivity.
Defined.

(** ** What the driver prints, read back *)

Section ReadBack.

Context {W : World}.

Lemma decimal_digits_of_uint (d : Decimal.uint) :
  forallb (is_digit_of 10) (chars (NilEmpty.string_of_uint d)) = true.
Proof.
  induction d; cbn [NilEmpty.string_of_uint chars list_ascii_of_string forallb];
    [reflexivity|..]; unfold chars in IHd; rewrite IHd; reflexivity.
Qed.

Lemma numeral_value_of_uint_acc (d : Decimal.uint) (acc : positive) :
  numeral_value 10 (chars (NilEmpty.string_of_uint d)) (Z.pos acc)
  = Z.pos (Pos.of_uint_acc d acc).
Proof.
  revert acc.
  induction d; intros acc;
    cbn [NilEmpty.string_of_uint chars list_ascii_of_string numeral_value Pos.of_uint_acc];
    [reflexivity|..]; unfold chars in IHd; rewrite <- IHd; f_equal;
    match goal with
    | |- _ + digit_of ?c = _ =>
        let k := eval vm_compute in (digit_of c) in change (digit_of c) with k
    end; lia.
Qed.

Lemma numeral_value_of_uint (d : Decimal.uint) :
  numeral_value 10 (chars (NilEmpty.string_of_uint d)) 0 = Z.of_N (Pos.of_uint d).
Proof.
  induction d;
    cbn [NilEmpty.string_of_uint chars list_ascii_of_string numeral_value Pos.of_uint];
    [reflexivity|..];
    match goal with
    | |- numeral_value 10 _ (0 * 10 + digit_of ?c) = _ =>
        let k := eval vm_compute in (0 * 10 + digit_of c) in
        change (0 * 10 + digit_of c) with k
    end;
    [exact IHd|..]; apply numeral_value_of_uint_acc.
Qed.

(** The decimal rendering of a positive number does not start with 0. *)
Lemma to_uint_no_leading_zero (p : positive) (l : Decimal.uint) :
  Pos.to_uint p <> Decimal.D0 l.
Proof.
  intros E.
  pose proof (DecimalPos.Unsigned.to_of (Pos.to_uint p)) as Hn.
  rewrite DecimalPos.Unsigned.of_to in Hn. cbn [N.to_uint] in Hn.
  rewrite E, DecimalFacts.unorm_D0 in Hn.
  destruct l as [| | | | | | | | | | ] eqn:El;
    try (pose proof (DecimalFacts.nb_digits_unorm l ltac:(subst l; discriminate)) as Hle;
         rewrite El, <- Hn in Hle; cbn [Decimal.nb_digits] in Hle; lia).
  apply (DecimalPos.Unsigned.to_uint_nonzero p). exact E.
Qed.

(** A 32-bit value rendered by [operator<<] is read back by the parser of
    the input file. *)
Lemma dec_line_value (v : Z) :
  0 <= v <= UINT_MAX -> line_value (dec v) = Some v.
Proof.
  intros Hv. unfold dec.
  destruct (Z.to_N v) as [|p] eqn:Hn.
  - assert (v = 0) by lia. subst v. reflexivity.
  - assert (Hp : Z.pos p = v) by lia.
    cbn [N.to_uint].
    pose proof (decimal_digits_of_uint (Pos.to_uint p)) as Hall.
    pose proof (numeral_value_of_uint (Pos.to_uint p)) as Hval.
    rewrite DecimalPos.Unsigned.of_to in Hval. cbn [Z.of_N] in Hval.
    pose proof (to_uint_no_leading_zero p) as Hhead.
    pose proof (DecimalPos.Unsigned.to_uint_nonnil p) as Hnil.
    destruct (Pos.to_uint p) as [|l|l|l|l|l|l|l|l|l|l];
      [contradiction|exfalso; now apply (Hhead l)|..];
      unfold line_value, NilZero.string_of_uint;
      cbn [NilEmpty.string_of_uint chars list_ascii_of_string skip_space] in *;
      match goal with
      | |- context [isspace ?c] =>
          let b := eval vm_compute in (isspace c) in change (isspace c) with b
      end;
      cbv beta iota;
      match goal with
      | |- context [code ?c =? 48] =>
          let b := eval vm_compute in (code c =? 48) in change (code c =? 48) with b
      end;
      cbv beta iota; unfold numeral; rewrite Hall, Hval, Hp;
      replace (v <=? UINT_MAX) with true by (symmetry; apply Z.leb_le; lia);
      reflexivity.
Qed.

Lemma dec_no_newline (v : Z) : no_newline (dec v) = true.
Proof.
  unfold no_newline, dec.
  assert (H : forall d, forallb (fun c => negb (is_newline c))
                                (chars (NilEmpty.string_of_uint d)) = true).
  { induction d; cbn [NilEmpty.string_of_uint chars list_ascii_of_string forallb];
      [reflexivity|..]; unfold chars in IHd; rewrite IHd; reflexivity. }
  unfold NilZero.string_of_uint.
  destruct (N.to_uint (Z.to_N v)) eqn:E; try (rewrite <- E; apply H); reflexivity.
Qed.

Lemma stdout_text_print_sample (vs : list Z) :
  stdout_text (print_sample vs) = unlines (map dec vs).
Proof.
  induction vs as [|v vs IH]; [reflexivity|].
  cbn [print_sample map stdout_text unlines fold_right].
  unfold print_sample in IH. rewrite IH.
  unfold unlines. induction (dec v); [reflexivity|]. cbn [String.append]. now f_equal.
Qed.

(** X12.  What generation mode prints can be fed back with -i: a file
    holding the text printed for a sample of 32-bit values is read as
    exactly these values, in order. *)
Theorem printed_sample_read_back (l : locals) (path : string) (o : Z) (vs : list Z) :
  Forall (fun v => 0 <= v <= UINT_MAX) vs ->
  read_file path = Some (stdout_text (print_sample vs)) ->
  exists u',
    handle_option l (mkResult (ch "i") path o) = ([], Next (with_untwister l u'))
    /\ m_observedOutputs u' = m_observedOutputs (untwister l) ++ vs.
Proof.
  intros Hvs Hread. exists (add_lines (file_lines (stdout_text (print_sample vs))) (untwister l)).
  rewrite handle_option_i. unfold case_i. rewrite Hread. split; [reflexivity|].
  rewrite add_lines_observed, stdout_text_print_sample. f_equal.
  rewrite file_lines_unlines.
  - rewrite map_map. clear Hread. induction Hvs as [|v vs Hv Hvs IH]; [reflexivity|].
    cbn [map]. rewrite IH. f_equal. apply strtoul32_line_value. now apply dec_line_value.
  - clear. induction vs as [|v vs IH]; [reflexivity|].
    cbn [map forallb]. now rewrite dec_no_newline.
Qed.

End ReadBack.

Lemma printed_sample_read_back_witness :
  exists u',
    @handle_option Sample.replay_world (@locals0 Sample.replay_world)
                   (mkResult (ch "i") "sample.txt" QUESTION)
    = ([], Next (with_untwister (@locals0 Sample.replay_world) u'))
    /\ m_observedOutputs u' = [42; 0; 4294967295].
Proof.
  apply (@printed_sample_read_back Sample.replay_world (@locals0 Sample.replay_world)
           "sample.txt" QUESTION [42; 0; 4294967295]).
  - repeat constructor; unfold UINT_MAX; lia.
  - reflexivity.
Defined.

(** ** Lines and observations *)

Section Lines.

Context {W : World}.

Lemma last_app_cons (a : list ascii) (c : ascii) (r : list ascii) (d : ascii) :
  last (a ++ c :: r) d = last (c :: r) d.
Proof.
  induction a as [|x a IH]; [reflexivity|].
  cbn [app]. rewrite <- IH. cbn [last].
  destruct (a ++ c :: r) eqn:E; [destruct a; discriminate|reflexivity].
Qed.

(** getline delivers one line per newline, and one more for an unfinished
    last line. *)
Lemma getlines_length (cs line : list ascii) :
  forallb (fun c => negb (is_newline c)) line = true ->
  List.length (getlines cs line)
  = (List.length (filter is_newline cs)
     + if negb (is_newline (last (line ++ cs) (ascii_of_nat 10)))
       then 1 else 0)%nat.
Proof.
  revert line. induction cs as [|c rest IH]; intros line Hline.
  - rewrite app_nil_r. cbn [getlines filter List.length Nat.add].
    destruct line as [|x line]; [reflexivity|].
    assert (Hlast : negb (is_newline (last (x :: line) (ascii_of_nat 10))) = true).
    { rewrite forallb_forall in Hline. apply Hline.
      destruct (exists_last (l := x :: line) ltac:(discriminate)) as (l' & y & E).
      rewrite E. rewrite last_last. apply in_or_app. right. now left. }
    now rewrite Hlast.
  - cbn [getlines filter]. rewrite last_app_cons.
    destruct (is_newline c) eqn:Hc.
    + cbn [List.length]. rewrite (IH [] eq_refl). cbn [app].
      destruct rest as [|y rest]; [cbn [last]; rewrite Hc; reflexivity|].
      reflexivity.
    + rewrite (IH (line ++ [c])).
      * rewrite <- app_assoc. cbn [app]. now rewrite last_app_cons.
      * rewrite forallb_app, Hline. cbn [forallb]. now rewrite Hc.
Qed.

(** X13.  Reading a file with -i adds exactly one observation per line,
    blank or not: as many as the file has newlines, and one more when the
    file does not end with a newline. *)
Theorem one_observation_per_line (l : locals) (path content : string) (o : Z) :
  read_file path = Some content ->
  exists u',
    handle_option l (mkResult (ch "i") path o) = ([], Next (with_untwister l u'))
    /\ List.length (m_observedOutputs u')
       = (List.length (m_observedOutputs (untwister l))
          + count_newlines content
          + if ends_open content then 1 else 0)%nat.
Proof.
  intros Hread. exists (add_lines (file_lines content) (untwister l)).
  rewrite handle_option_i. unfold case_i. rewrite Hread. split; [reflexivity|].
  rewrite add_lines_observed, length_app, length_map.
  unfold file_lines, count_newlines, ends_open.
  rewrite (getlines_length (chars content) [] eq_refl). cbn [app]. lia.
Qed.

(** X14.  In the usage text only the first registered algorithm carries the
    default mark; every algorithm has its own line. *)
Theorem usage_marks_first_name_only (name : string) (names : list string) :
  usage_names (name :: names) O
  = name_line name :: Stdout " (default)" :: Stdout endl
    :: flat_map (fun n => [name_line n; Stdout endl]) names.
Proof.
  assert (H : forall ns k, usage_names ns (S k)
                           = flat_map (fun n => [name_line n; Stdout endl]) ns).
  { induction ns as [|n ns IH]; intros k; [reflexivity|].
    cbn [usage_names flat_map app]. now rewrite IH. }
  cbn [usage_names app]. now rewrite H.
Qed.

End Lines.

Lemma one_observation_per_line_witness :
  exists u',
    @handle_option Sample.world (@locals0 Sample.world)
                   (mkResult (ch "i") "observed.txt" QUESTION)
    = ([], Next (with_untwister (@locals0 Sample.world) u'))
    /\ List.length (m_observedOutputs u') = 4%nat.
Proof.
  destruct (@one_observation_per_line Sample.world (@locals0 Sample.world)
              "observed.txt" _ QUESTION eq_refl) as (u' & Hrun & Hlen).
  exists u'. split; [exact Hrun|]. rewrite Hlen. reflexivity.
Defined.
